(** * Celebrity annotation script ([main.py]): model and verified properties

    The script iterates over a fixed list of image files; each one is sent
    to the recognition service and the faces returned are outlined and
    labelled on a copy of the image.  The development below embeds the
    script: Python numbers (arbitrary-precision [int], binary64 [float]),
    the [pathlib] operations it uses, the TypedDicts of the response, and
    the sequence of library calls it issues. *)

From Stdlib Require Import ZArith List String Ascii Bool Lia.
From Stdlib Require Import Floats.SpecFloat.
Import ListNotations.
Local Open Scope string_scope.
Local Open Scope list_scope.
Local Open Scope Z_scope.

(** ** Exceptions *)

Inductive exn : Type :=
| KeyError (key : string)
| ValueError (msg : string)
| OverflowError (msg : string)
| LibraryError (msg : string).

(** [repr] of a string, taken as the sequence of its code points, all
    below 256: single quotes unless the string holds a single quote and no
    double quote; the backslash, the chosen quote, tab, newline and return
    are escaped, the other code points that are not printable are written
    in hexadecimal. *)
Definition backslash : ascii := ascii_of_nat 92.
Definition single_quote : ascii := ascii_of_nat 39.
Definition double_quote : ascii := ascii_of_nat 34.

Fixpoint occurs (c : ascii) (s : string) : bool :=
  match s with
  | EmptyString => false
  | String a s' => Ascii.eqb a c || occurs c s'
  end.

Definition hex_digit (n : nat) : ascii :=
  nth n (list_ascii_of_string "0123456789abcdef") "0"%char.

(** [c.isprintable()] *)
Definition printable (c : ascii) : bool :=
  let n := nat_of_ascii c in
  ((32 <=? n) && (n <=? 126) || (161 <=? n) && negb (n =? 173))%nat.

Definition escape (quote c : ascii) : string :=
  let n := nat_of_ascii c in
  if Ascii.eqb c backslash then String backslash (String backslash EmptyString)
  else if Ascii.eqb c quote then String backslash (String quote EmptyString)
  else if (n =? 9)%nat then String backslash "t"
  else if (n =? 10)%nat then String backslash "n"
  else if (n =? 13)%nat then String backslash "r"
  else if printable c then String c EmptyString
  else String backslash
         (String "x"
            (String (hex_digit (n / 16))
               (String (hex_digit (n mod 16)) EmptyString))).

Fixpoint escape_all (quote : ascii) (s : string) : string :=
  match s with
  | EmptyString => EmptyString
  | String c s' => escape quote c ++ escape_all quote s'
  end.

Definition py_repr (s : string) : string :=
  let quote :=
    if occurs single_quote s && negb (occurs double_quote s)
    then double_quote else single_quote in
  String quote (escape_all quote s ++ String quote EmptyString).

(** [str(e)]: a [KeyError] prints the [repr] of its key. *)
Definition str_exn (e : exn) : string :=
  match e with
  | KeyError k => py_repr k
  | ValueError m => m
  | OverflowError m => m
  | LibraryError m => m
  end.

(** Pure, fallible computations: [inl e] is a raised exception. *)
Definition result (A : Type) : Type := (exn + A)%type.

Definition rbind {A B : Type} (r : result A) (k : A -> result B) : result B :=
  match r with
  | inl e => inl e
  | inr a => k a
  end.

Declare Scope result_scope.
Delimit Scope result_scope with result.
Notation "x <-- r ;; k" := (rbind r (fun x => k))
  (at level 61, r at next level, right associativity) : result_scope.

(** ** Python numbers *)

Module PyNum.

Definition prec : Z := 53.
Definition emax : Z := 1024.

Inductive pynum : Type :=
| PyInt (z : Z)
| PyFloat (f : spec_float).

(** [float(z)] for an [int]: correctly rounded, [OverflowError] out of
    range. *)
Definition float_of_int (z : Z) : result spec_float :=
  match binary_normalize prec emax z 0 false with
  | S754_infinity _ => inl (OverflowError "int too large to convert to float")
  | f => inr f
  end.

Definition to_float (x : pynum) : result spec_float :=
  match x with
  | PyInt z => float_of_int z
  | PyFloat f => inr f
  end.

(** [x * y] *)
Definition py_mul (x y : pynum) : result pynum :=
  match x, y with
  | PyInt a, PyInt b => inr (PyInt (a * b))
  | _, _ =>
      (a <-- to_float x ;;
       b <-- to_float y ;;
       inr (PyFloat (SFmul prec emax a b)))%result
  end.

(** [x + y] *)
Definition py_add (x y : pynum) : result pynum :=
  match x, y with
  | PyInt a, PyInt b => inr (PyInt (a + b))
  | _, _ =>
      (a <-- to_float x ;;
       b <-- to_float y ;;
       inr (PyFloat (SFadd prec emax a b)))%result
  end.

(** The integral part of a finite float, sign applied after shifting the
    magnitude: truncation toward zero. *)
Definition float_trunc (s : bool) (m : positive) (e : Z) : Z :=
  cond_Zopp s
    (match e with
     | Z0 => Zpos m
     | Zpos _ => Z.shiftl (Zpos m) e
     | Zneg _ => Z.shiftr (Zpos m) (- e)
     end).

(** [int(x)] *)
Definition py_int (x : pynum) : result Z :=
  match x with
  | PyInt z => inr z
  | PyFloat (S754_zero _) => inr 0
  | PyFloat S754_nan =>
      inl (ValueError "cannot convert float NaN to integer")
  | PyFloat (S754_infinity _) =>
      inl (OverflowError "cannot convert float infinity to integer")
  | PyFloat (S754_finite s m e) => inr (float_trunc s m e)
  end.

(** Exact comparison of a float with an integer ([None] for NaN). *)
Definition float_cmp_int (f : spec_float) (z : Z) : option comparison :=
  match f with
  | S754_nan => None
  | S754_infinity s => Some (if s then Lt else Gt)
  | S754_zero _ => Some (0 ?= z)
  | S754_finite s m e =>
      Some (match e with
            | Zneg _ => cond_Zopp s (Zpos m) ?= z * 2 ^ (- e)
            | _ => cond_Zopp s (Zpos m) * 2 ^ e ?= z
            end)
  end.

(** [x > n] for an [int] literal [n] *)
Definition py_gt_int (x : pynum) (n : Z) : bool :=
  match x with
  | PyInt z => n <? z
  | PyFloat f =>
      match float_cmp_int f n with
      | Some Gt => true
      | _ => false
      end
  end.

(** [x <= n] for an [int] literal [n] *)
Definition py_le_int (x : pynum) (n : Z) : bool :=
  match x with
  | PyInt z => z <=? n
  | PyFloat f =>
      match float_cmp_int f n with
      | Some (Lt | Eq) => true
      | _ => false
      end
  end.

(** The binary64 value nearest to the decimal literal [n / 10 ^ d]. *)
Definition decimal (n : Z) (d : Z) : spec_float :=
  SFdiv prec emax (binary_normalize prec emax n 0 false)
                  (binary_normalize prec emax (10 ^ d) 0 false).

End PyNum.
Import PyNum.

(** ** [pathlib] (POSIX flavour)

    A pure path is its root (the empty string, one slash or exactly two
    slashes) and its components; empty components and single dots are
    dropped by the parser.  [stem] follows CPython up to 3.13. *)

Module PurePath.

Definition slash : ascii := "/"%char.
Definition dot : ascii := "."%char.

(** [s.split("/")] *)
Fixpoint split_slash (s : string) : list string :=
  match s with
  | EmptyString => [EmptyString]
  | String c s' =>
      if Ascii.eqb c slash then EmptyString :: split_slash s'
      else match split_slash s' with
           | x :: r => String c x :: r
           | [] => [String c EmptyString]
           end
  end.

Record path : Type := { root : string; parts : list string }.

Definition is_part (p : string) : bool :=
  negb (p =? EmptyString)%string && negb (p =? ".")%string.

Definition parse_root (s : string) : string :=
  if prefix "///" s then "/"
  else if prefix "//" s then "//"
  else if prefix "/" s then "/"
  else EmptyString.

(** [PurePosixPath(s)] *)
Definition parse (s : string) : path :=
  {| root := parse_root s; parts := filter is_part (split_slash s) |}.

(** [p / q]: an absolute right operand replaces the left one. *)
Definition joinpath (p q : path) : path :=
  if (root q =? EmptyString)%string
  then {| root := root p; parts := (parts p ++ parts q) |}
  else q.

(** [str(p)] *)
Definition str (p : path) : string :=
  match parts p with
  | [] => if (root p =? EmptyString)%string then "." else root p
  | _ => root p ++ concat "/" (parts p)
  end.

(** [p.parent] *)
Definition parent (p : path) : path :=
  {| root := root p; parts := removelast (parts p) |}.

(** [p.name] *)
Definition name (p : path) : string := last (parts p) EmptyString.

(** [s.rfind(c)], [-1] when [c] does not occur. *)
Fixpoint rfind (c : ascii) (s : string) : Z :=
  match s with
  | EmptyString => -1
  | String a s' =>
      let i := rfind c s' in
      if 0 <=? i then i + 1
      else if Ascii.eqb a c then 0 else -1
  end.

(** [p.stem] *)
Definition stem (p : path) : string :=
  let n := name p in
  let i := rfind dot n in
  if (0 <? i) && (i <? Z.of_nat (String.length n) - 1)
  then substring 0 (Z.to_nat i) n
  else n.

(** [c not in s] *)
Fixpoint lacks (c : ascii) (s : string) : bool :=
  match s with
  | EmptyString => true
  | String a s' => negb (Ascii.eqb a c) && lacks c s'
  end.

(** A component as the parser leaves it. *)
Definition part_ok (p : string) : Prop :=
  lacks slash p = true /\ is_part p = true.

(** A path as the parser and the operations below leave it. *)
Definition well_formed (p : path) : Prop :=
  In (root p) [EmptyString; "/"; "//"] /\ Forall part_ok (parts p).

End PurePath.

(** [get_image_path] and the output name of the main loop; [file__] is the
    value of [__file__]. *)
Section Paths.

Variable file__ : string.

Definition images_dir : PurePath.path :=
  PurePath.joinpath (PurePath.parent (PurePath.parse file__))
                    (PurePath.parse "images").

Definition get_image_path (file_name : string) : string :=
  PurePath.str (PurePath.joinpath images_dir (PurePath.parse file_name)).

(** [get_image_path(f"{Path(photo_path).stem}-resultado.jpg")] *)
Definition output_path_of (photo_path : string) : string :=
  get_image_path
    (PurePath.stem (PurePath.parse photo_path) ++ "-resultado.jpg").

End Paths.

(** ** The recognition response

    The TypedDicts of the service's response; every key is optional, a
    missing one is [None].  [d["k"]] raises [KeyError] on a missing key,
    [d.get("k", v)] falls back to [v]. *)

Record BoundingBoxTypeDef : Type :=
  { Width : option pynum;
    Height : option pynum;
    Left : option pynum;
    Top : option pynum }.

Record ComparedFaceTypeDef : Type :=
  { BoundingBox : option BoundingBoxTypeDef }.

Record CelebrityTypeDef : Type :=
  { Name : option string;
    Face : option ComparedFaceTypeDef;
    MatchConfidence : option pynum }.

Record RecognizeCelebritiesResponseTypeDef : Type :=
  { CelebrityFaces : option (list CelebrityTypeDef) }.

Definition getitem {A : Type} (key : string) (field : option A) : result A :=
  match field with
  | Some a => inr a
  | None => inl (KeyError key)
  end.

Definition get {A : Type} (field : option A) (default : A) : A :=
  match field with
  | Some a => a
  | None => default
  end.

(** ** Library calls and the environment

    Every call the script makes into a library or the operating system is an
    event.  A computation reads the events issued so far and returns its
    result together with the events it issues itself; a call that raises is
    still recorded, as the last event before the exception travels up. *)

Inductive event : Type :=
| Import (module_name : string)
| Boto3Client (service : string)
| Print (line : string)
| FileOpen (path : string)
| FileRead (path : string)
| RecognizeCelebrities (image_bytes : list Byte.byte)
| ImageOpen (path : string)
| ImageDrawDraw
| FontTruetype (font : string) (size : Z)
| DrawRectangle (xy : Z * Z * Z * Z) (fill outline : option string) (width : Z)
| DrawTextbbox (xy : Z * Z) (text : string)
| DrawText (xy : Z * Z) (text : string) (fill : string)
| ImageSave (path : string).

(** What the world answers; each answer may depend on everything that
    happened before.  [raises] ranges over the subclasses of [Exception],
    for every call, [print] included.
    The box answered by [textbbox] is taken in whole pixels. *)
Record Env : Type :=
  { raises : list event -> event -> option exn;
    file_bytes : list event -> string -> list Byte.byte;
    response : list event -> list Byte.byte ->
               RecognizeCelebritiesResponseTypeDef;
    image_size : list event -> string -> Z * Z;
    textbbox : list event -> Z * Z -> string -> Z * Z * Z * Z }.

Definition M (A : Type) : Type := list event -> result A * list event.

Definition ret {A : Type} (a : A) : M A := fun _ => (inr a, []).

Definition bind {A B : Type} (m : M A) (k : A -> M B) : M B :=
  fun h =>
    let '(r, out) := m h in
    match r with
    | inl e => (inl e, out)
    | inr a => let '(r', out') := k a (h ++ out) in (r', (out ++ out'))
    end.

Definition lift {A : Type} (r : result A) : M A := fun _ => (r, []).

(** A library call that answers [value]. *)
Definition call {A : Type} (env : Env) (ev : event) (value : list event -> A)
  : M A :=
  fun h =>
    match raises env h ev with
    | Some e => (inl e, [ev])
    | None => (inr (value h), [ev])
    end.

Definition call_ (env : Env) (ev : event) : M unit :=
  call env ev (fun _ => tt).

(** [print(line)] *)
Definition print (env : Env) (line : string) : M unit :=
  call_ env (Print line).

(** [try: body  except Exception as e: handler(e)] *)
Definition try_except (body : M unit) (handler : exn -> M unit) : M unit :=
  fun h =>
    let '(r, out) := body h in
    match r with
    | inr _ => (r, out)
    | inl e =>
        let '(r', out') := handler e (h ++ out) in (r', (out ++ out'))
    end.

(** [for x in l: body(x)] *)
Fixpoint for_each {A : Type} (l : list A) (body : A -> M unit) : M unit :=
  match l with
  | [] => ret tt
  | x :: xs => bind (body x) (fun _ => for_each xs body)
  end.

Declare Scope prog_scope.
Delimit Scope prog_scope with prog.
Notation "x <- m ;; k" := (bind m (fun x => k))
  (at level 61, m at next level, right associativity) : prog_scope.
Notation "m ;; k" := (bind m (fun _ => k))
  (at level 61, right associativity) : prog_scope.

(** ** The script *)

Section Script.

Variable env : Env.
Variable file__ : string.

(** [recognize_celebrities] *)
Definition recognize_celebrities (photo_path : string)
  : M RecognizeCelebritiesResponseTypeDef :=
  (call_ env (FileOpen photo_path) ;;
   image_bytes <- call env (FileRead photo_path)
                    (fun h => file_bytes env h photo_path) ;;
   call env (RecognizeCelebrities image_bytes)
     (fun h => response env h image_bytes))%prog.

(** Lines 56 to 61: the pixel box of a face. *)
Definition pixel_box (width height : Z) (face : CelebrityTypeDef)
  : result (Z * Z * Z * Z) :=
  (compared <-- getitem "Face" (Face face) ;;
   box <-- getitem "BoundingBox" (BoundingBox compared) ;;
   l <-- getitem "Left" (Left box) ;;
   lw <-- py_mul l (PyInt width) ;;
   left <-- py_int lw ;;
   t <-- getitem "Top" (Top box) ;;
   th <-- py_mul t (PyInt height) ;;
   top <-- py_int th ;;
   l' <-- getitem "Left" (Left box) ;;
   w <-- getitem "Width" (Width box) ;;
   r <-- py_add l' w ;;
   rw <-- py_mul r (PyInt width) ;;
   right <-- py_int rw ;;
   t' <-- getitem "Top" (Top box) ;;
   h <-- getitem "Height" (Height box) ;;
   b <-- py_add t' h ;;
   bh <-- py_mul b (PyInt height) ;;
   bottom <-- py_int bh ;;
   inr (left, top, right, bottom))%result.

Definition confidence_of (face : CelebrityTypeDef) : pynum :=
  get (MatchConfidence face) (PyInt 0).

Definition name_of (face : CelebrityTypeDef) : string :=
  get (Name face) "Desconhecido".

(** The body of the loop over the faces (lines 56 to 70). *)
Definition draw_face (width height : Z) (face : CelebrityTypeDef) : M unit :=
  (px <- lift (pixel_box width height face) ;;
   let '(left_, top_, right_, bottom_) := px in
   let confidence := confidence_of face in
   if py_gt_int confidence 90 then
     call_ env (DrawRectangle (left_, top_, right_, bottom_)
                  None (Some "red") 3) ;;
     let name := name_of face in
     let text_position := (left_, top_ - 20) in
     bbox <- call env (DrawTextbbox text_position name)
               (fun h => textbbox env h text_position name) ;;
     call_ env (DrawRectangle bbox (Some "red") None 1) ;;
     call_ env (DrawText text_position name "white")
   else ret tt)%prog.

(** [draw_face_boxes] *)
Definition draw_face_boxes (image_path output_path : string)
           (faces : list CelebrityTypeDef) : M unit :=
  (size <- call env (ImageOpen image_path)
             (fun h => image_size env h image_path) ;;
   call_ env ImageDrawDraw ;;
   call_ env (FontTruetype "Ubuntu-R.ttf" 20) ;;
   let '(width, height) := size in
   for_each faces (draw_face width height) ;;
   call_ env (ImageSave output_path) ;;
   print env ("Imagem processada e salva em: " ++ output_path))%prog.

Definition image_files : list string :=
  ["capr.jpeg"; "riana.jpeg"; "will.jpg"; "ss.jpg"; "pipoquinha.jpg";
   "Bonne.jpg"; "ior.jpg"; "jojo.jpg"; "Davi.jpg"; "sub.jpg"].

(** The body of the [try] (lines 82 to 92). *)
Definition process_file (image_file : string) : M unit :=
  (let photo_path := get_image_path file__ image_file in
   resp <- recognize_celebrities photo_path ;;
   let celebrity_faces := get (CelebrityFaces resp) [] in
   match celebrity_faces with
   | [] => print env ("Nenhuma celebridade detectada em: " ++ photo_path)
   | _ :: _ =>
       let output_path := output_path_of file__ photo_path in
       draw_face_boxes photo_path output_path celebrity_faces
   end)%prog.

Definition handle_file (image_file : string) : M unit :=
  try_except (process_file image_file)
    (fun e =>
       print env ("Erro ao processar a imagem " ++ image_file ++ ": "
                  ++ str_exn e)).

(** The loop of the main block over a list of files. *)
Definition main_loop (files : list string) : M unit :=
  for_each files handle_file.

(** The script: the imports of lines 2 to 8, the creation of the client
    and the main block. *)
Definition main : M unit :=
  (call_ env (Import "pathlib") ;;
   call_ env (Import "boto3") ;;
   call_ env (Import "mypy_boto3_rekognition.type_defs") ;;
   call_ env (Import "PIL") ;;
   call_ env (Boto3Client "rekognition") ;;
   main_loop image_files)%prog.

End Script.

(** ** Reading a sequence of events *)

(** The boxes of the outlined rectangles, in drawing order. *)
Fixpoint outline_boxes (tr : list event) : list (Z * Z * Z * Z) :=
  match tr with
  | [] => []
  | DrawRectangle xy _ (Some _) _ :: tr' => xy :: outline_boxes tr'
  | _ :: tr' => outline_boxes tr'
  end.

(** The filled rectangles (label backgrounds), in drawing order. *)
Fixpoint filled_boxes (tr : list event) : list (Z * Z * Z * Z) :=
  match tr with
  | [] => []
  | DrawRectangle xy (Some _) _ _ :: tr' => xy :: filled_boxes tr'
  | _ :: tr' => filled_boxes tr'
  end.

(** Position and text of the labels written, in drawing order. *)
Fixpoint labels (tr : list event) : list (Z * Z * string) :=
  match tr with
  | [] => []
  | DrawText xy text _ :: tr' => (xy, text) :: labels tr'
  | _ :: tr' => labels tr'
  end.

(** The paths the image was saved to. *)
Fixpoint saved_paths (tr : list event) : list string :=
  match tr with
  | [] => []
  | ImageSave p :: tr' => p :: saved_paths tr'
  | _ :: tr' => saved_paths tr'
  end.

(** The console. *)
Fixpoint printed (tr : list event) : list string :=
  match tr with
  | [] => []
  | Print line :: tr' => line :: printed tr'
  | _ :: tr' => printed tr'
  end.

(** A call made by the annotator ([draw_face_boxes]); the recognition
    client and the main block make none of these. *)
Definition annotator_event (ev : event) : bool :=
  match ev with
  | ImageOpen _ | ImageDrawDraw | FontTruetype _ _ | DrawRectangle _ _ _ _
  | DrawTextbbox _ _ | DrawText _ _ _ | ImageSave _ => true
  | _ => false
  end.

(** [confidence > 90] (line 64) *)
Definition confident (face : CelebrityTypeDef) : bool :=
  py_gt_int (confidence_of face) 90.

(** The pixel box of a face whose conversion does not raise. *)
Definition box_of (width height : Z) (face : CelebrityTypeDef)
  : Z * Z * Z * Z :=
  match pixel_box width height face with
  | inr px => px
  | inl _ => (0, 0, 0, 0)
  end.

(** [text_position] (line 67) *)
Definition label_position (width height : Z) (face : CelebrityTypeDef)
  : Z * Z :=
  let '(left_, top_, _, _) := box_of width height face in (left_, top_ - 20).

Definition label_of (width height : Z) (face : CelebrityTypeDef)
  : Z * Z * string :=
  (label_position width height face, name_of face).

(** The four calls that draw one face, [bbox] being the answer of
    [textbbox]. *)
Definition face_events (px : Z * Z * Z * Z) (name : string)
           (bbox : Z * Z * Z * Z) : list event :=
  let '(left_, top_, _, _) := px in
  [DrawRectangle px None (Some "red") 3;
   DrawTextbbox (left_, top_ - 20) name;
   DrawRectangle bbox (Some "red") None 1;
   DrawText (left_, top_ - 20) name "white"].

(** A box that lies within an image of the given size. *)
Definition inside_image (width height : Z) (px : Z * Z * Z * Z) : bool :=
  let '(left_, top_, right_, bottom_) := px in
  (0 <=? left_) && (left_ <=? width) && (0 <=? right_) && (right_ <=? width)
  && (0 <=? top_) && (top_ <=? height)
  && (0 <=? bottom_) && (bottom_ <=? height).

(** Scaling one fraction to pixels: [int(fraction * extent)]. *)
Definition to_pixels (fraction : pynum) (extent : Z) : result Z :=
  (x <-- py_mul fraction (PyInt extent) ;; py_int x)%result.

(** The exact value [(-1)^s * m * 2^e] of a finite float, truncated toward
    zero. *)
Definition truncate_toward_zero (s : bool) (m : positive) (e : Z) : Z :=
  Z.quot (cond_Zopp s (Zpos m) * 2 ^ Z.max e 0) (2 ^ Z.max (- e) 0).

(** The shapes a run of the loop over the faces can take: its outcome and
    the calls it issued.  The loop ends at the first face whose box cannot
    be converted or at the first call that raises. *)
Inductive loop_run (width height : Z)
  : list CelebrityTypeDef -> result unit -> list event -> Prop :=
| run_done : loop_run width height [] (inr tt) []
| run_bad_box face faces e :
    pixel_box width height face = inl e ->
    loop_run width height (face :: faces) (inl e) []
| run_skip face faces px r out :
    pixel_box width height face = inr px ->
    confident face = false ->
    loop_run width height faces r out ->
    loop_run width height (face :: faces) r out
| run_draw face faces px bbox r out :
    pixel_box width height face = inr px ->
    confident face = true ->
    loop_run width height faces r out ->
    loop_run width height (face :: faces) r
             (face_events px (name_of face) bbox ++ out)
| run_stop face faces px bbox n e :
    pixel_box width height face = inr px ->
    confident face = true ->
    (1 <= n <= 4)%nat ->
    loop_run width height (face :: faces) (inl e)
             (firstn n (face_events px (name_of face) bbox)).

(** The calls [draw_face_boxes] makes before its loop. *)
Definition prelude (image_path : string) : list event :=
  [ImageOpen image_path; ImageDrawDraw; FontTruetype "Ubuntu-R.ttf" 20].

(** The calls of [recognize_celebrities]. *)
Definition recognition_calls (photo_path : string)
           (image_bytes : list Byte.byte) : list event :=
  [FileOpen photo_path; FileRead photo_path; RecognizeCelebrities image_bytes].

(** The line printed by the [except] clause. *)
Definition error_line (image_file : string) (e : exn) : string :=
  "Erro ao processar a imagem " ++ image_file ++ ": " ++ str_exn e.

(** An environment where the error line of the [except] clause is always
    printed without an exception. *)
Definition error_lines_print (env : Env) : Prop :=
  forall h image_file e, raises env h (Print (error_line image_file e)) = None.

(** An environment where no call raises. *)
Definition never_raises (env : Env) : Prop :=
  forall h ev, raises env h ev = None.

(** ** Sample data *)

Definition bounding_box (l t w h : spec_float) : BoundingBoxTypeDef :=
  {| Width := Some (PyFloat w); Height := Some (PyFloat h);
     Left := Some (PyFloat l); Top := Some (PyFloat t) |}.

Definition celebrity (name : option string) (box : BoundingBoxTypeDef)
           (confidence : option pynum) : CelebrityTypeDef :=
  {| Name := name;
     Face := Some {| BoundingBox := Some box |};
     MatchConfidence := confidence |}.

(** Left=0.1, Top=0.2, Width=0.3, Height=0.4 *)
Definition box_example : BoundingBoxTypeDef :=
  bounding_box (decimal 1 1) (decimal 2 1) (decimal 3 1) (decimal 4 1).

(** Left=1.5, Top=0.02, Width=0.3, Height=-0.4 *)
Definition box_outside : BoundingBoxTypeDef :=
  bounding_box (decimal 15 1) (decimal 2 2) (decimal 3 1) (decimal (-4) 1).

Definition face_named : CelebrityTypeDef :=
  celebrity (Some "Ana") box_example (Some (PyFloat (decimal 995 1))).

Definition face_unnamed : CelebrityTypeDef :=
  celebrity None box_example (Some (PyFloat (decimal 995 1))).

Definition face_at_threshold : CelebrityTypeDef :=
  celebrity (Some "Bia") box_example (Some (PyFloat (decimal 90 0))).

Definition face_without_confidence : CelebrityTypeDef :=
  celebrity (Some "Caio") box_example None.

Definition face_outside : CelebrityTypeDef :=
  celebrity (Some "Duda") box_outside (Some (PyInt 100)).

Definition batch_of_three : list CelebrityTypeDef :=
  [face_named; face_at_threshold; face_without_confidence].

(** A world with a 1000x500 image behind every path, a service that
    answers [faces], and calls that raise where [bad] says so. *)
Definition world (faces : option (list CelebrityTypeDef))
           (bad : event -> bool) : Env :=
  {| raises := fun _ ev =>
                 if bad ev then Some (LibraryError "failed") else None;
     file_bytes := fun _ _ => [];
     response := fun _ _ => {| CelebrityFaces := faces |};
     image_size := fun _ _ => (1000, 500);
     textbbox := fun _ xy text =>
                   (fst xy, snd xy,
                    fst xy + 10 * Z.of_nat (String.length text),
                    snd xy + 20) |}.

Definition calm (faces : option (list CelebrityTypeDef)) : Env :=
  world faces (fun _ => false).

Definition missing_file (path : string) (ev : event) : bool :=
  match ev with
  | FileOpen p => (p =? path)%string
  | _ => false
  end.

(** ** Further readings of a sequence of events *)

(** The paths given to the builtin [open] (line 32), in order. *)
Fixpoint file_opens (tr : list event) : list string :=
  match tr with
  | [] => []
  | FileOpen p :: tr' => p :: file_opens tr'
  | _ :: tr' => file_opens tr'
  end.

(** The paths given to [Image.open] (line 49), in order. *)
Fixpoint image_opens (tr : list event) : list string :=
  match tr with
  | [] => []
  | ImageOpen p :: tr' => p :: image_opens tr'
  | _ :: tr' => image_opens tr'
  end.

(** The elements of a list at the positions flagged [true], in order. *)
Fixpoint select {A : Type} (flags : list bool) (l : list A) : list A :=
  match flags, l with
  | b :: bs, x :: xs => if b then x :: select bs xs else select bs xs
  | _, _ => []
  end.

(** An environment where [print] never raises. *)
Definition console_works (env : Env) : Prop :=
  forall h line, raises env h (Print line) = None.

(** The calls whose exception is caught nowhere in the script: the
    imports, the creation of the client and the [print] of an error line
    in the [except] clause. *)
Definition uncaught_call (ev : event) : Prop :=
  (exists module_name, ev = Import module_name) \/
  (exists service, ev = Boto3Client service) \/
  (exists image_file e,
      In image_file image_files /\ ev = Print (error_line image_file e)).

(** Every [print] and nothing else. *)
Definition closed_console (ev : event) : bool :=
  match ev with
  | Print _ => true
  | _ => false
  end.

(** The byte strings sent to the recognition service, in order. *)
Fixpoint recognized (tr : list event) : list (list Byte.byte) :=
  match tr with
  | [] => []
  | RecognizeCelebrities b :: tr' => b :: recognized tr'
  | _ :: tr' => recognized tr'
  end.

(** The exceptions the conversion of a box can raise. *)
Definition pixel_box_exceptions : list exn :=
  [KeyError "Face"; KeyError "BoundingBox"; KeyError "Left"; KeyError "Top";
   KeyError "Width"; KeyError "Height";
   ValueError "cannot convert float NaN to integer";
   OverflowError "cannot convert float infinity to integer";
   OverflowError "int too large to convert to float"].

(** The three lines the main block can print for a file. *)
Definition line_for (file__ image_file line : string) : Prop :=
  line = ("Nenhuma celebridade detectada em: "
          ++ get_image_path file__ image_file)%string \/
  line = ("Imagem processada e salva em: "
          ++ output_path_of file__ (get_image_path file__ image_file))%string \/
  exists e, line = error_line image_file e.

(** A face without the [Face] key, with a confidence below the threshold. *)
Definition face_without_box : CelebrityTypeDef :=
  {| Name := Some "Eva"%string; Face := None;
     MatchConfidence := Some (PyInt 50) |}.

(** The save to [path] and nothing else. *)
Definition failing_save (path : string) (ev : event) : bool :=
  match ev with
  | ImageSave p => (p =? path)%string
  | _ => false
  end.

(** An entity whose confidence is a NaN. *)
Definition face_with_nan : CelebrityTypeDef :=
  celebrity (Some "Fabi"%string) box_example (Some (PyFloat S754_nan)).

(** The loading of the font and nothing else. *)
Definition missing_font (ev : event) : bool :=
  match ev with
  | FontTruetype _ _ => true
  | _ => false
  end.

(** * Properties *)

(** ** Numbers *)

Lemma cond_Zopp_mul (s : bool) (a b : Z) :
  cond_Zopp s (a * b) = cond_Zopp s a * b.
Proof. destruct s; simpl; lia. Qed.

Lemma float_trunc_toward_zero (s : bool) (m : positive) (e : Z) :
  float_trunc s m e = truncate_toward_zero s m e.
Proof.
  unfold float_trunc, truncate_toward_zero.
  destruct e as [|p|p].
  - simpl Z.max. rewrite Z.pow_0_r, Z.mul_1_r, Z.quot_1_r. reflexivity.
  - replace (Z.max (Z.pos p) 0) with (Z.pos p) by lia.
    replace (Z.max (- Z.pos p) 0) with 0 by lia.
    rewrite Z.pow_0_r, Z.quot_1_r, Z.shiftl_mul_pow2 by lia.
    apply cond_Zopp_mul.
  - replace (Z.max (Z.neg p) 0) with 0 by lia.
    replace (Z.max (- Z.neg p) 0) with (- Z.neg p) by lia.
    rewrite Z.pow_0_r, Z.mul_1_r, Z.shiftr_div_pow2 by lia.
    assert (Hd : 0 < 2 ^ (- Z.neg p)) by (apply Z.pow_pos_nonneg; lia).
    destruct s; simpl cond_Zopp.
    + change (Z.neg m) with (- Z.pos m).
      rewrite Z.quot_opp_l by lia.
      rewrite Z.quot_div_nonneg by lia. reflexivity.
    + rewrite Z.quot_div_nonneg by lia. reflexivity.
Qed.

Lemma py_le_int_not_gt (x : pynum) (n : Z) :
  py_le_int x n = true -> py_gt_int x n = false.
Proof.
  destruct x as [z|f]; simpl.
  - intros H. apply Z.leb_le in H. apply Z.ltb_ge. exact H.
  - destruct (float_cmp_int f n) as [[ | | ]|]; congruence.
Qed.

(** ** Running computations *)

Lemma for_each_cons {A : Type} (x : A) (xs : list A) (body : A -> M unit)
      (h : list event) :
  for_each (x :: xs) body h =
  match body x h with
  | (inl e, out) => (inl e, out)
  | (inr _, out) =>
      (fst (for_each xs body (h ++ out)),
       out ++ snd (for_each xs body (h ++ out)))
  end.
Proof.
  simpl. unfold bind.
  destruct (body x h) as [[e|[]] out]; [reflexivity|].
  destruct (for_each xs body (h ++ out)) as [r out']. reflexivity.
Qed.

Lemma bind_run {A B : Type} (m : M A) (k : A -> M B) (h : list event) :
  bind m k h =
  match m h with
  | (inl e, out) => (inl e, out)
  | (inr a, out) => (fst (k a (h ++ out)), out ++ snd (k a (h ++ out)))
  end.
Proof.
  unfold bind. destruct (m h) as [[e|a] out]; [reflexivity|].
  destruct (k a (h ++ out)) as [r' out']. reflexivity.
Qed.

Lemma bind_lift {A B : Type} (r : result A) (k : A -> M B) (h : list event) :
  bind (lift r) k h =
  match r with
  | inl e => (inl e, [])
  | inr a => k a h
  end.
Proof.
  unfold bind, lift. destruct r as [e|a]; [reflexivity|].
  rewrite app_nil_r. destruct (k a h) as [r' out']. reflexivity.
Qed.

Lemma bind_call {A B : Type} (env : Env) (ev : event) (value : list event -> A)
      (k : A -> M B) (h : list event) :
  bind (call env ev value) k h =
  match raises env h ev with
  | Some e => (inl e, [ev])
  | None =>
      (fst (k (value h) (h ++ [ev])), ev :: snd (k (value h) (h ++ [ev])))
  end.
Proof.
  unfold bind, call. destruct (raises env h ev) as [e|]; [reflexivity|].
  destruct (k (value h) (h ++ [ev])) as [r' out']. reflexivity.
Qed.

Lemma bind_call_ {B : Type} (env : Env) (ev : event) (k : unit -> M B)
      (h : list event) :
  bind (call_ env ev) k h =
  match raises env h ev with
  | Some e => (inl e, [ev])
  | None => (fst (k tt (h ++ [ev])), ev :: snd (k tt (h ++ [ev])))
  end.
Proof. unfold call_. apply bind_call. Qed.

Lemma outline_boxes_app (a b : list event) :
  outline_boxes (a ++ b) = (outline_boxes a ++ outline_boxes b).
Proof.
  induction a as [|ev a IH]; [reflexivity|].
  destruct ev; simpl; try exact IH.
  destruct outline; simpl; [f_equal|]; exact IH.
Qed.

Lemma filled_boxes_app (a b : list event) :
  filled_boxes (a ++ b) = (filled_boxes a ++ filled_boxes b).
Proof.
  induction a as [|ev a IH]; [reflexivity|].
  destruct ev; simpl; try exact IH.
  destruct fill; simpl; [f_equal|]; exact IH.
Qed.

Lemma labels_app (a b : list event) :
  labels (a ++ b) = (labels a ++ labels b).
Proof.
  induction a as [|ev a IH]; [reflexivity|].
  destruct ev; simpl; try exact IH. f_equal. exact IH.
Qed.

Lemma saved_paths_app (a b : list event) :
  saved_paths (a ++ b) = (saved_paths a ++ saved_paths b).
Proof.
  induction a as [|ev a IH]; [reflexivity|].
  destruct ev; simpl; try exact IH. f_equal. exact IH.
Qed.

(** ** One face *)

Section OneFace.

Variable env : Env.
Variables width height : Z.

(** A face whose box cannot be converted raises before anything is
    drawn. *)
Lemma draw_face_raises (face : CelebrityTypeDef) (h : list event) (e : exn) :
  pixel_box width height face = inl e ->
  draw_face env width height face h = (inl e, []).
Proof.
  intros Hpx. unfold draw_face. rewrite bind_lift, Hpx. reflexivity.
Qed.

(** A face at or below the threshold is passed over. *)
Lemma draw_face_skipped (face : CelebrityTypeDef) (h : list event)
      (px : Z * Z * Z * Z) :
  pixel_box width height face = inr px ->
  confident face = false ->
  draw_face env width height face h = (inr tt, []).
Proof.
  intros Hpx Hc. unfold draw_face. rewrite bind_lift, Hpx.
  destruct px as [[[l t] r] b]. unfold confident in Hc. rewrite Hc.
  reflexivity.
Qed.

(** A face above the threshold issues the four drawing calls in order,
    up to the first one that raises. *)
Lemma draw_face_drawn (face : CelebrityTypeDef) (h : list event)
      (px : Z * Z * Z * Z) :
  pixel_box width height face = inr px ->
  confident face = true ->
  exists bbox n,
    (1 <= n <= 4)%nat /\
    snd (draw_face env width height face h)
    = firstn n (face_events px (name_of face) bbox) /\
    (fst (draw_face env width height face h) = inr tt -> n = 4%nat).
Proof.
  intros Hpx Hc. unfold draw_face. rewrite bind_lift, Hpx.
  destruct px as [[[l t] r] b]. unfold confident in Hc. rewrite Hc.
  set (R1 := DrawRectangle (l, t, r, b) None (Some "red") 3).
  set (TB := DrawTextbbox (l, t - 20) (name_of face)).
  set (bb := textbbox env (h ++ [R1]) (l, t - 20) (name_of face)).
  exists bb.
  rewrite bind_call_.
  destruct (raises env h R1) as [e1|].
  { exists 1%nat. simpl. split; [lia|split; [reflexivity|discriminate]]. }
  rewrite bind_call. fold bb.
  destruct (raises env (h ++ [R1]) TB) as [e2|].
  { exists 2%nat. simpl. split; [lia|split; [reflexivity|discriminate]]. }
  rewrite bind_call_.
  destruct (raises env ((h ++ [R1]) ++ [TB])
              (DrawRectangle bb (Some "red") None 1)) as [e3|].
  { exists 3%nat. simpl. split; [lia|split; [reflexivity|discriminate]]. }
  exists 4%nat. unfold call_, call.
  destruct (raises env
              (((h ++ [R1]) ++ [TB])
                 ++ [DrawRectangle bb (Some "red") None 1])
              (DrawText (l, t - 20) (name_of face) "white")) as [e4|];
    simpl; (split; [lia|split; reflexivity]).
Qed.

End OneFace.

(** ** The loop over the faces *)

Lemma firstn_face_events (px bbox : Z * Z * Z * Z) (name : string) :
  firstn 4 (face_events px name bbox) = face_events px name bbox.
Proof. destruct px as [[[l t] r] b]. reflexivity. Qed.

Lemma for_each_loop_run (env : Env) (width height : Z)
      (faces : list CelebrityTypeDef) :
  forall h,
    loop_run width height faces
             (fst (for_each faces (draw_face env width height) h))
             (snd (for_each faces (draw_face env width height) h)).
Proof.
  induction faces as [|face faces IH]; intros h.
  - simpl. constructor.
  - rewrite for_each_cons.
    destruct (pixel_box width height face) as [e|px] eqn:Hpx.
    + rewrite (draw_face_raises env width height face h e Hpx).
      simpl. now constructor.
    + destruct (confident face) eqn:Hc.
      * destruct (draw_face_drawn env width height face h px Hpx Hc)
          as (bbox & n & Hn & Hout & Hok).
        destruct (draw_face env width height face h) as [[e|[]] out];
          simpl in Hout, Hok |- *; subst out.
        -- now apply run_stop.
        -- rewrite (Hok eq_refl), firstn_face_events.
           eapply run_draw; eauto.
      * rewrite (draw_face_skipped env width height face h px Hpx Hc).
        rewrite app_nil_r. simpl. eapply run_skip; eauto.
Qed.

Lemma box_of_ok (width height : Z) (face : CelebrityTypeDef)
      (px : Z * Z * Z * Z) :
  pixel_box width height face = inr px -> box_of width height face = px.
Proof. intros H. unfold box_of. now rewrite H. Qed.

Lemma label_of_ok (width height : Z) (face : CelebrityTypeDef)
      (l t r b : Z) :
  pixel_box width height face = inr (l, t, r, b) ->
  label_of width height face = ((l, t - 20), name_of face).
Proof.
  intros H. unfold label_of, label_position.
  now rewrite (box_of_ok _ _ _ _ H).
Qed.

Lemma face_events_outline (px bbox : Z * Z * Z * Z) (name : string) (n : nat) :
  (1 <= n)%nat ->
  outline_boxes (firstn n (face_events px name bbox)) = [px].
Proof.
  destruct px as [[[l t] r] b].
  destruct n as [|[|[|[|[|n]]]]]; intros Hn; try lia; reflexivity.
Qed.

Lemma face_events_labels (px bbox : Z * Z * Z * Z) (name : string) (n : nat) :
  labels (firstn n (face_events px name bbox))
  = if (4 <=? n)%nat then [(fst (fst (fst px)), snd (fst (fst px)) - 20, name)]
    else [].
Proof.
  destruct px as [[[l t] r] b].
  destruct n as [|[|[|[|[|n]]]]]; reflexivity.
Qed.

Section LoopFacts.

Variables width height : Z.

(** The outlined boxes are an initial segment of the boxes of the faces
    above the threshold, and all of them when the loop completes. *)
Lemma loop_run_outline faces r out :
  loop_run width height faces r out ->
  exists rest,
    map (box_of width height) (filter confident faces)
    = (outline_boxes out ++ rest) /\
    (r = inr tt -> rest = []).
Proof.
  induction 1 as [|face faces e Hpx|face faces px r out Hpx Hc _ IH
                  |face faces px bbox r out Hpx Hc _ IH
                  |face faces px bbox n e Hpx Hc Hn].
  - exists []. split; reflexivity.
  - eexists. split; [reflexivity|discriminate].
  - simpl. rewrite Hc. exact IH.
  - destruct IH as (rest & Heq & Hr). exists rest. split; [|exact Hr].
    simpl filter. rewrite Hc. simpl map.
    rewrite <- (firstn_face_events px bbox (name_of face)).
    rewrite outline_boxes_app, (face_events_outline px bbox _ 4) by lia.
    rewrite (box_of_ok _ _ _ _ Hpx), Heq. reflexivity.
  - eexists. split; [|discriminate].
    simpl filter. rewrite Hc. simpl map.
    rewrite face_events_outline by lia.
    rewrite (box_of_ok _ _ _ _ Hpx). reflexivity.
Qed.

(** The same for the labels. *)
Lemma loop_run_labels faces r out :
  loop_run width height faces r out ->
  exists rest,
    map (label_of width height) (filter confident faces)
    = (labels out ++ rest) /\
    (r = inr tt -> rest = []).
Proof.
  induction 1 as [|face faces e Hpx|face faces px r out Hpx Hc _ IH
                  |face faces px bbox r out Hpx Hc _ IH
                  |face faces px bbox n e Hpx Hc Hn].
  - exists []. split; reflexivity.
  - eexists. split; [reflexivity|discriminate].
  - simpl. rewrite Hc. exact IH.
  - destruct IH as (rest & Heq & Hr). exists rest. split; [|exact Hr].
    simpl filter. rewrite Hc. simpl map.
    rewrite <- (firstn_face_events px bbox (name_of face)).
    rewrite labels_app, (face_events_labels px bbox _ 4).
    destruct px as [[[l t] rr] b].
    rewrite (label_of_ok _ _ _ _ _ _ _ Hpx), Heq. reflexivity.
  - simpl filter. rewrite Hc. simpl map.
    rewrite face_events_labels.
    destruct px as [[[l t] rr] b].
    rewrite (label_of_ok _ _ _ _ _ _ _ Hpx).
    destruct (4 <=? n)%nat; eexists; (split; [reflexivity|discriminate]).
Qed.

(** A loop that completes converted every box, and filled one label
    background per face above the threshold. *)
Lemma loop_run_complete faces out :
  loop_run width height faces (inr tt) out ->
  Forall (fun face => pixel_box width height face
                      = inr (box_of width height face)) faces /\
  List.length (filled_boxes out) = List.length (filter confident faces).
Proof.
  remember (inr tt) as r eqn:Hr. intros Hrun. revert Hr.
  induction Hrun as [|face faces e Hpx|face faces px r out Hpx Hc _ IH
                     |face faces px bbox r out Hpx Hc _ IH
                     |face faces px bbox n e Hpx Hc Hn]; intros Hr;
    try discriminate.
  - split; [constructor|reflexivity].
  - destruct (IH Hr) as [Hall Hlen]. split.
    + constructor; [|exact Hall]. now rewrite (box_of_ok _ _ _ _ Hpx).
    + simpl. now rewrite Hc.
  - destruct (IH Hr) as [Hall Hlen]. split.
    + constructor; [|exact Hall]. now rewrite (box_of_ok _ _ _ _ Hpx).
    + rewrite filled_boxes_app, length_app. simpl filter. rewrite Hc.
      destruct px as [[[l t] rr] b]. simpl. now rewrite Hlen.
Qed.

(** Only drawing calls are issued by the loop. *)
Lemma loop_run_draws_only faces r out :
  loop_run width height faces r out ->
  saved_paths out = [] /\ printed out = [].
Proof.
  induction 1 as [|face faces e Hpx|face faces px r out Hpx Hc _ IH
                  |face faces px bbox r out Hpx Hc _ IH
                  |face faces px bbox n e Hpx Hc Hn].
  - split; reflexivity.
  - split; reflexivity.
  - exact IH.
  - destruct px as [[[l t] rr] b]. simpl. exact IH.
  - destruct px as [[[l t] rr] b].
    destruct n as [|[|[|[|[|n]]]]]; split; reflexivity.
Qed.

(** With every face at or below the threshold the loop issues no call. *)
Lemma loop_run_nothing_drawn faces r out :
  loop_run width height faces r out ->
  Forall (fun face => confident face = false) faces ->
  out = [].
Proof.
  induction 1 as [|face faces e Hpx|face faces px r out Hpx Hc _ IH
                  |face faces px bbox r out Hpx Hc _ IH
                  |face faces px bbox n e Hpx Hc Hn]; intros Hall;
    try reflexivity.
  - apply IH. now inversion Hall.
  - inversion Hall; congruence.
  - inversion Hall; congruence.
Qed.

End LoopFacts.

(** ** The annotator *)

Section Annotator.

Variable env : Env.

Lemma draw_face_boxes_eq (image_path output_path : string)
      (faces : list CelebrityTypeDef) (h : list event) :
  draw_face_boxes env image_path output_path faces h =
  match raises env h (ImageOpen image_path) with
  | Some e => (inl e, firstn 1 (prelude image_path))
  | None =>
  match raises env (h ++ firstn 1 (prelude image_path)) ImageDrawDraw with
  | Some e => (inl e, firstn 2 (prelude image_path))
  | None =>
  match raises env (h ++ firstn 2 (prelude image_path))
               (FontTruetype "Ubuntu-R.ttf" 20) with
  | Some e => (inl e, prelude image_path)
  | None =>
      let '(width, height) := image_size env h image_path in
      let loop := for_each faces (draw_face env width height)
                           (h ++ prelude image_path) in
      match fst loop with
      | inl e => (inl e, prelude image_path ++ snd loop)
      | inr _ =>
          match raises env (h ++ prelude image_path ++ snd loop)
                       (ImageSave output_path) with
          | Some e =>
              (inl e, prelude image_path ++ snd loop ++ [ImageSave output_path])
          | None =>
              let line := ("Imagem processada e salva em: "
                           ++ output_path)%string in
              (match raises env
                            (h ++ prelude image_path ++ snd loop
                             ++ [ImageSave output_path]) (Print line) with
               | Some e => inl e
               | None => inr tt
               end,
               prelude image_path ++ snd loop ++
               [ImageSave output_path; Print line])
          end
      end
  end end end.
Proof.
  unfold draw_face_boxes, prelude. rewrite bind_call.
  destruct (raises env h (ImageOpen image_path)); [reflexivity|].
  rewrite bind_call_. cbn [firstn].
  destruct (raises env (h ++ [ImageOpen image_path]) ImageDrawDraw);
    [reflexivity|].
  rewrite bind_call_, <- !app_assoc. cbn [app].
  destruct (raises env (h ++ [ImageOpen image_path; ImageDrawDraw])
              (FontTruetype "Ubuntu-R.ttf" 20)); [reflexivity|].
  rewrite <- ?app_assoc. cbn [app fst snd].
  destruct (image_size env h image_path) as [width height].
  rewrite bind_run. cbv zeta.
  destruct (for_each faces (draw_face env width height)
              (h ++ [ImageOpen image_path; ImageDrawDraw;
                     FontTruetype "Ubuntu-R.ttf" 20])) as [[e|[]] out];
    cbn [fst snd app]; [reflexivity|].
  rewrite bind_call_, <- ?app_assoc. cbn [app].
  destruct (raises env _ (ImageSave output_path)); [reflexivity|].
  unfold print, call_, call. rewrite <- ?app_assoc. cbn [app]. cbv zeta.
  destruct (raises env _ (Print _)); reflexivity.
Qed.

(** In a world where nothing raises, a face the box of which converts is
    dealt with normally. *)
Lemma draw_face_calm (width height : Z) (face : CelebrityTypeDef)
      (h : list event) (px : Z * Z * Z * Z) :
  never_raises env ->
  pixel_box width height face = inr px ->
  fst (draw_face env width height face h) = inr tt.
Proof.
  intros Hcalm Hpx. unfold draw_face. rewrite bind_lift, Hpx.
  destruct px as [[[l t] r] b].
  destruct (py_gt_int (confidence_of face) 90); [|reflexivity].
  rewrite bind_call_, Hcalm. simpl fst.
  rewrite bind_call, Hcalm. simpl fst.
  rewrite bind_call_, Hcalm. simpl fst.
  unfold call_, call. rewrite Hcalm. reflexivity.
Qed.

Lemma loop_calm (width height : Z) (faces : list CelebrityTypeDef) :
  never_raises env ->
  Forall (fun face => exists px, pixel_box width height face = inr px)
         faces ->
  forall h, fst (for_each faces (draw_face env width height) h) = inr tt.
Proof.
  intros Hcalm Hall. induction Hall as [|face faces [px Hpx] _ IH]; intros h.
  - reflexivity.
  - rewrite for_each_cons.
    pose proof (draw_face_calm width height face h px Hcalm Hpx) as Hok.
    destruct (draw_face env width height face h) as [[e|[]] out];
      simpl in Hok; [discriminate|].
    simpl fst. apply IH.
Qed.

(** A completed run of the annotator is the prelude, a completed loop,
    the save and the confirmation line. *)
Lemma draw_face_boxes_ok (image_path output_path : string)
      (faces : list CelebrityTypeDef) (h out : list event) :
  draw_face_boxes env image_path output_path faces h = (inr tt, out) ->
  exists drawn,
    loop_run (fst (image_size env h image_path))
             (snd (image_size env h image_path)) faces (inr tt) drawn /\
    out = (prelude image_path ++ drawn ++
           [ImageSave output_path;
            Print ("Imagem processada e salva em: " ++ output_path)]).
Proof.
  rewrite draw_face_boxes_eq.
  destruct (raises env h (ImageOpen image_path)); [discriminate|].
  destruct (raises env _ ImageDrawDraw); [discriminate|].
  destruct (raises env _ (FontTruetype _ _)); [discriminate|].
  destruct (image_size env h image_path) as [width height].
  simpl fst; simpl snd.
  pose proof (for_each_loop_run env width height faces
                (h ++ prelude image_path)) as Hrun.
  cbv zeta.
  destruct (for_each faces (draw_face env width height)
              (h ++ prelude image_path)) as [[e|[]] drawn];
    simpl fst in *; simpl snd in *; [discriminate|].
  destruct (raises env _ (ImageSave output_path)); [discriminate|].
  destruct (raises env _ (Print _)); [discriminate|].
  intros H. injection H as <-. exists drawn. split; [exact Hrun|reflexivity].
Qed.

End Annotator.

(** ** The main block *)

Section MainBlock.

Variable env : Env.
Variable file__ : string.

Lemma recognize_celebrities_eq (photo_path : string) (h : list event) :
  recognize_celebrities env photo_path h =
  match raises env h (FileOpen photo_path) with
  | Some e => (inl e, [FileOpen photo_path])
  | None =>
  match raises env (h ++ [FileOpen photo_path]) (FileRead photo_path) with
  | Some e => (inl e, [FileOpen photo_path; FileRead photo_path])
  | None =>
      let image_bytes := file_bytes env (h ++ [FileOpen photo_path])
                                    photo_path in
      let h' := h ++ [FileOpen photo_path; FileRead photo_path] in
      match raises env h' (RecognizeCelebrities image_bytes) with
      | Some e => (inl e, recognition_calls photo_path image_bytes)
      | None => (inr (response env h' image_bytes),
                 recognition_calls photo_path image_bytes)
      end
  end end.
Proof.
  unfold recognize_celebrities, recognition_calls. rewrite bind_call_.
  destruct (raises env h (FileOpen photo_path)); [reflexivity|].
  rewrite bind_call.
  destruct (raises env (h ++ [FileOpen photo_path]) (FileRead photo_path));
    [reflexivity|].
  rewrite <- !app_assoc. cbn [app]. unfold call. cbv zeta.
  destruct (raises env _ (RecognizeCelebrities _)); reflexivity.
Qed.

(** The recognition client starts by opening the file, and makes no call
    of the annotator. *)
Lemma recognize_celebrities_calls (photo_path : string) (h : list event) :
  exists rest,
    snd (recognize_celebrities env photo_path h) = FileOpen photo_path :: rest
    /\ existsb annotator_event (FileOpen photo_path :: rest) = false.
Proof.
  rewrite recognize_celebrities_eq.
  destruct (raises env h (FileOpen photo_path)).
  { exists []. split; reflexivity. }
  destruct (raises env _ (FileRead photo_path)).
  { eexists. split; reflexivity. }
  cbv zeta. destruct (raises env _ (RecognizeCelebrities _));
    eexists; split; reflexivity.
Qed.

Lemma process_file_starts (image_file : string) (h : list event) :
  exists rest,
    snd (process_file env file__ image_file h)
    = FileOpen (get_image_path file__ image_file) :: rest.
Proof.
  unfold process_file. cbv zeta. rewrite bind_run.
  destruct (recognize_celebrities_calls
              (get_image_path file__ image_file) h) as (rest & Hout & _).
  destruct (recognize_celebrities env (get_image_path file__ image_file) h)
    as [[e|resp] out]; cbn [snd] in Hout |- *; subst out.
  - now exists rest.
  - eexists. cbn [app]. reflexivity.
Qed.

(** The [try] statement: whatever the body raises is handed to the
    handler, which prints the error line; the statement completes unless
    that [print] raises. *)
Lemma handle_file_eq (image_file : string) (h : list event) :
  handle_file env file__ image_file h =
  match process_file env file__ image_file h with
  | (inr _, out) => (inr tt, out)
  | (inl e, out) =>
      (match raises env (h ++ out) (Print (error_line image_file e)) with
       | Some e' => inl e'
       | None => inr tt
       end,
       out ++ [Print (error_line image_file e)])
  end.
Proof.
  unfold handle_file, try_except, print, call_, call, error_line.
  destruct (process_file env file__ image_file h) as [[e|[]] out];
    [|reflexivity].
  destruct (raises env (h ++ out) _); reflexivity.
Qed.

(** The loop stops at the first iteration that raises. *)
Lemma main_loop_step (image_file : string) (rest : list string)
      (h : list event) :
  main_loop env file__ (image_file :: rest) h =
  match handle_file env file__ image_file h with
  | (inl e, out) => (inl e, out)
  | (inr _, out) =>
      (fst (main_loop env file__ rest (h ++ out)),
       out ++ snd (main_loop env file__ rest (h ++ out)))
  end.
Proof. unfold main_loop. apply for_each_cons. Qed.

Section Logged.

Hypothesis Hlog : error_lines_print env.

Lemma handle_file_completes (image_file : string) (h : list event) :
  fst (handle_file env file__ image_file h) = inr tt.
Proof.
  rewrite handle_file_eq.
  destruct (process_file env file__ image_file h) as [[e|[]] out];
    [|reflexivity].
  cbn [fst]. now rewrite Hlog.
Qed.

Lemma main_loop_cons (image_file : string) (rest : list string)
      (h : list event) :
  main_loop env file__ (image_file :: rest) h =
  let out := snd (handle_file env file__ image_file h) in
  (fst (main_loop env file__ rest (h ++ out)),
   out ++ snd (main_loop env file__ rest (h ++ out))).
Proof.
  rewrite main_loop_step.
  pose proof (handle_file_completes image_file h) as Hok.
  destruct (handle_file env file__ image_file h) as [[e|[]] out];
    cbn [fst] in Hok; [discriminate|reflexivity].
Qed.

Lemma main_loop_completes (files : list string) :
  forall h, fst (main_loop env file__ files h) = inr tt.
Proof.
  induction files as [|f files IH]; intros h.
  - reflexivity.
  - rewrite main_loop_cons. cbv zeta. cbn [fst]. apply IH.
Qed.

(** Every file of the batch is opened, whatever happened to the files
    before it. *)
Lemma main_loop_opens_all (files : list string) (image_file : string) :
  In image_file files ->
  forall h,
    In (FileOpen (get_image_path file__ image_file))
       (snd (main_loop env file__ files h)).
Proof.
  induction files as [|f files IH]; intros Hin h; [contradiction|].
  rewrite main_loop_cons. cbv zeta. cbn [snd]. apply in_or_app.
  destruct Hin as [->|Hin].
  - left. rewrite handle_file_eq.
    destruct (process_file_starts image_file h) as [rest Hout].
    destruct (process_file env file__ image_file h) as [[e|[]] out];
      cbn [snd] in Hout |- *; subst out.
    + apply in_or_app. left. now left.
    + now left.
  - right. now apply IH.
Qed.

End Logged.

End MainBlock.

(** ** Paths *)

Module PurePathFacts.
Import PurePath.

Lemma append_assoc (a b c : string) :
  ((a ++ b) ++ c)%string = (a ++ b ++ c)%string.
Proof. induction a as [|x a IH]; simpl; [reflexivity|now rewrite IH]. Qed.

Lemma lacks_append (c : ascii) (a b : string) :
  lacks c (a ++ b) = lacks c a && lacks c b.
Proof.
  induction a as [|x a IH]; simpl; [reflexivity|].
  rewrite IH. now rewrite andb_assoc.
Qed.

Lemma lacks_substring (c : ascii) (s : string) :
  lacks c s = true -> forall n m, lacks c (substring n m s) = true.
Proof.
  induction s as [|x s IH]; intros Hs n m.
  - destruct n, m; reflexivity.
  - simpl in Hs. apply andb_true_iff in Hs as [Hx Hs].
    destruct n as [|n]; simpl.
    + destruct m as [|m]; [reflexivity|]. simpl.
      rewrite Hx. now apply IH.
    + now apply IH.
Qed.

Lemma split_slash_not_nil (s : string) : split_slash s <> [].
Proof.
  induction s as [|c s IH]; simpl; [discriminate|].
  destruct (Ascii.eqb c slash); [discriminate|].
  destruct (split_slash s); discriminate.
Qed.

Lemma split_slash_lacks (s : string) :
  lacks slash s = true -> split_slash s = [s].
Proof.
  induction s as [|c s IH]; simpl; [reflexivity|].
  intros H. apply andb_true_iff in H as [Hc Hs].
  apply negb_true_iff in Hc. rewrite Hc, (IH Hs). reflexivity.
Qed.

Lemma split_slash_append (a s : string) :
  lacks slash a = true ->
  split_slash (a ++ String slash s) = a :: split_slash s.
Proof.
  induction a as [|c a IH]; simpl; intros H.
  - reflexivity.
  - apply andb_true_iff in H as [Hc Ha].
    apply negb_true_iff in Hc. rewrite Hc, (IH Ha). reflexivity.
Qed.

Lemma split_slash_leading (s : string) :
  split_slash (String slash s) = EmptyString :: split_slash s.
Proof. reflexivity. Qed.

Lemma split_slash_pieces (s : string) :
  Forall (fun x => lacks slash x = true) (split_slash s).
Proof.
  induction s as [|c s IH]; simpl.
  - repeat constructor.
  - destruct (Ascii.eqb c slash) eqn:Hc.
    + constructor; [reflexivity|exact IH].
    + destruct (split_slash s) as [|x r].
      * repeat constructor. simpl. now rewrite Hc.
      * inversion IH as [|? ? Hx Hr]; subst.
        constructor; [|exact Hr]. simpl. now rewrite Hc, Hx.
Qed.

Lemma split_slash_concat (l : list string) :
  l <> [] ->
  Forall (fun x => lacks slash x = true) l ->
  split_slash (concat "/" l) = l.
Proof.
  induction l as [|x l IH]; intros Hne Hall; [contradiction|].
  inversion Hall as [|? ? Hx Hl]; subst.
  destruct l as [|y l].
  - simpl. now apply split_slash_lacks.
  - change (concat "/" (x :: y :: l))
      with (x ++ String slash (concat "/" (y :: l)))%string.
    rewrite split_slash_append by exact Hx.
    rewrite IH; [reflexivity|discriminate|exact Hl].
Qed.

Lemma filter_parts (l : list string) :
  Forall part_ok l -> filter is_part l = l.
Proof.
  induction 1 as [|x l [_ Hx] _ IH]; simpl; [reflexivity|].
  now rewrite Hx, IH.
Qed.

Lemma parse_root_values (s : string) :
  In (parse_root s) [EmptyString; "/"; "//"].
Proof.
  unfold parse_root.
  destruct (prefix "///" s); [right; now left|].
  destruct (prefix "//" s); [right; right; now left|].
  destruct (prefix "/" s); [right; now left|now left].
Qed.

Lemma parse_well_formed (s : string) : well_formed (parse s).
Proof.
  split; [apply parse_root_values|]. simpl.
  apply Forall_forall. intros x Hx. apply filter_In in Hx as [Hin Hpart].
  split; [|exact Hpart].
  pose proof (split_slash_pieces s) as Hall.
  rewrite Forall_forall in Hall. now apply Hall.
Qed.

Lemma parent_well_formed (p : path) :
  well_formed p -> well_formed (parent p).
Proof.
  intros [Hr Hp]. split; [exact Hr|]. simpl.
  apply Forall_forall. intros x Hx.
  rewrite Forall_forall in Hp. apply Hp.
  destruct (parts p) as [|y l] eqn:E; [contradiction|].
  rewrite (app_removelast_last y (l := y :: l)) by discriminate.
  apply in_or_app. now left.
Qed.

Lemma joinpath_well_formed (p q : path) :
  well_formed p -> well_formed q -> well_formed (joinpath p q).
Proof.
  intros [Hrp Hpp] [Hrq Hpq]. unfold joinpath.
  destruct (root q =? EmptyString)%string; [|now split].
  split; [exact Hrp|]. simpl. apply Forall_app. now split.
Qed.

(** Parsing what [str] printed gives the components back. *)
Lemma parts_parse_str (p : path) :
  well_formed p -> parts p <> [] -> parts (parse (str p)) = parts p.
Proof.
  intros [Hr Hp] Hne. unfold str.
  destruct (parts p) as [|x l] eqn:E; [contradiction|].
  assert (Hsplit : split_slash (concat "/" (x :: l)) = x :: l).
  { apply split_slash_concat; [discriminate|].
    eapply Forall_impl; [|exact Hp]. now intros a [Ha _]. }
  unfold parse. cbn [parts].
  destruct Hr as [<-|[<-|[<-|[]]]].
  - change (EmptyString ++ concat "/" (x :: l))%string
      with (concat "/" (x :: l)).
    rewrite Hsplit. now apply filter_parts.
  - change ("/" ++ concat "/" (x :: l))%string
      with (String slash (concat "/" (x :: l))).
    rewrite split_slash_leading, Hsplit.
    change (filter is_part (EmptyString :: x :: l))%string
      with (filter is_part (x :: l)).
    now apply filter_parts.
  - change ("//" ++ concat "/" (x :: l))%string
      with (String slash (String slash (concat "/" (x :: l)))).
    rewrite !split_slash_leading, Hsplit.
    change (filter is_part (EmptyString :: EmptyString :: x :: l))%string
      with (filter is_part (x :: l)).
    now apply filter_parts.
Qed.

Lemma last_app_r {A : Type} (a b : list A) (d : A) :
  b <> [] -> last (a ++ b) d = last b d.
Proof.
  intros Hb. induction a as [|x a IH]; [reflexivity|].
  simpl app. rewrite <- IH. simpl.
  destruct (a ++ b) eqn:E; [|reflexivity].
  apply app_eq_nil in E as [_ ->]. contradiction.
Qed.

Lemma name_joinpath (p q : path) :
  parts q <> [] -> name (joinpath p q) = name q.
Proof.
  intros Hq. unfold joinpath, name.
  destruct (root q =? EmptyString)%string; [|reflexivity].
  simpl. now apply last_app_r.
Qed.

Lemma parts_joinpath_not_nil (p q : path) :
  parts q <> [] -> parts (joinpath p q) <> [].
Proof.
  intros Hq. unfold joinpath.
  destruct (root q =? EmptyString)%string; [|exact Hq].
  simpl. intros H. apply app_eq_nil in H as [_ H]. contradiction.
Qed.

Lemma name_lacks_slash (p : path) :
  well_formed p -> lacks slash (name p) = true.
Proof.
  intros [_ Hp]. unfold name.
  destruct (parts p) as [|x l] eqn:E; [reflexivity|].
  rewrite Forall_forall in Hp.
  apply (Hp (last (x :: l) EmptyString)).
  rewrite (app_removelast_last EmptyString (l := x :: l)) at 2 by discriminate.
  apply in_or_app. right. now left.
Qed.

Lemma stem_lacks_slash (p : path) :
  well_formed p -> lacks slash (stem p) = true.
Proof.
  intros Hp. pose proof (name_lacks_slash p Hp) as Hn. unfold stem.
  destruct (_ && _); [|exact Hn]. now apply lacks_substring.
Qed.

Lemma stem_name (p q : path) : name p = name q -> stem p = stem q.
Proof. unfold stem. now intros ->. Qed.

Lemma is_part_result (s : string) : is_part (s ++ "-resultado.jpg") = true.
Proof.
  unfold is_part. destruct s as [|c [|c' s]]; simpl; [reflexivity| |].
  - destruct (Ascii.eqb c "."); reflexivity.
  - destruct (Ascii.eqb c "."); reflexivity.
Qed.

Lemma prefix_slash_lacks (s s' : string) :
  lacks slash s = true -> prefix (String slash s') s = false.
Proof.
  destruct s as [|c s]; [reflexivity|]. intros H. cbn [lacks] in H.
  apply andb_true_iff in H as [Hc _]. apply negb_true_iff in Hc.
  cbn [prefix]. destruct (ascii_dec slash c) as [E|_]; [|reflexivity].
  subst c. now rewrite Ascii.eqb_refl in Hc.
Qed.

Lemma parse_single (s : string) :
  lacks slash s = true -> is_part s = true ->
  parse s = {| root := EmptyString; parts := [s] |}.
Proof.
  intros Hs Hp. unfold parse, parse_root.
  rewrite !(prefix_slash_lacks s) by exact Hs.
  rewrite (split_slash_lacks s Hs). simpl. now rewrite Hp.
Qed.

Lemma concat_snoc (sep : string) (l : list string) (x : string) :
  l <> [] ->
  concat sep (l ++ [x]) = (concat sep l ++ sep ++ x)%string.
Proof.
  induction l as [|y l IH]; intros Hne; [contradiction|].
  destruct l as [|z l].
  - reflexivity.
  - change (concat sep ((y :: z :: l) ++ [x]))
      with (y ++ sep ++ concat sep ((z :: l) ++ [x]))%string.
    rewrite IH by discriminate.
    change (concat sep (y :: z :: l))
      with (y ++ sep ++ concat sep (z :: l))%string.
    now rewrite !append_assoc.
Qed.

(** Appending one plain component to a directory. *)
Lemma str_joinpath_single (p : path) (x : string) :
  parts p <> [] ->
  str (joinpath p {| root := EmptyString; parts := [x] |})
  = (str p ++ "/" ++ x)%string.
Proof.
  intros Hne. unfold joinpath, str. cbn [root parts String.eqb].
  destruct (parts p) as [|y l] eqn:E; [contradiction|].
  destruct ((y :: l) ++ [x]) eqn:E'.
  { apply app_eq_nil in E' as [E' _]. discriminate. }
  rewrite <- E', concat_snoc by discriminate.
  now rewrite append_assoc.
Qed.

Lemma rfind_lower (c : ascii) (s : string) : -1 <= rfind c s.
Proof.
  induction s as [|a s IH]; simpl; [lia|].
  destruct (0 <=? rfind c s) eqn:E.
  - apply Z.leb_le in E. lia.
  - destruct (Ascii.eqb a c); lia.
Qed.

Lemma rfind_lacks (c : ascii) (s : string) :
  lacks c s = true -> rfind c s = -1.
Proof.
  induction s as [|a s IH]; simpl; [reflexivity|]. intros H.
  apply andb_true_iff in H as [Ha Hs]. apply negb_true_iff in Ha.
  rewrite (IH Hs), Ha. reflexivity.
Qed.

Lemma rfind_last (c : ascii) (base ext : string) :
  lacks c ext = true ->
  rfind c (base ++ String c ext) = Z.of_nat (String.length base).
Proof.
  intros Hext. induction base as [|a base IH].
  - simpl. rewrite (rfind_lacks c ext Hext), Ascii.eqb_refl. reflexivity.
  - cbn [append rfind String.length]. rewrite IH.
    destruct (0 <=? Z.of_nat (String.length base)) eqn:E.
    + lia.
    + apply Z.leb_gt in E. lia.
Qed.

Lemma length_append (a b : string) :
  String.length (a ++ b) = (String.length a + String.length b)%nat.
Proof. induction a as [|x a IH]; simpl; [reflexivity|now rewrite IH]. Qed.

Lemma substring_append (a b : string) :
  substring 0 (String.length a) (a ++ b) = a.
Proof.
  induction a as [|x a IH]; simpl.
  - destruct b; reflexivity.
  - now rewrite IH.
Qed.

(** The stem of a name with an extension is the name without it. *)
Lemma stem_extension (p : path) (base ext : string) :
  name p = (base ++ "." ++ ext)%string ->
  base <> EmptyString -> ext <> EmptyString -> lacks dot ext = true ->
  stem p = base.
Proof.
  intros Hn Hb He Hd. unfold stem. rewrite Hn.
  change (base ++ "." ++ ext)%string with (base ++ String dot ext)%string.
  rewrite (rfind_last dot base ext Hd), length_append. cbn [String.length].
  assert (0 < String.length base)%nat
    by (destruct base; [contradiction|simpl; lia]).
  assert (0 < String.length ext)%nat
    by (destruct ext; [contradiction|simpl; lia]).
  replace (0 <? Z.of_nat (String.length base)) with true
    by (symmetry; apply Z.ltb_lt; lia).
  replace (Z.of_nat (String.length base) <?
           Z.of_nat (String.length base + S (String.length ext)) - 1)
    with true by (symmetry; apply Z.ltb_lt; lia).
  cbn [andb]. rewrite Nat2Z.id. apply substring_append.
Qed.

(** The stem of a name without a dot is the name. *)
Lemma stem_plain (p : path) :
  lacks dot (name p) = true -> stem p = name p.
Proof.
  intros Hd. unfold stem. rewrite (rfind_lacks dot _ Hd). reflexivity.
Qed.

End PurePathFacts.

(** ** Image paths *)

Section ImagePaths.
Import PurePath PurePathFacts.

Variable file__ : string.

Lemma images_dir_eq :
  images_dir file__ =
  {| root := root (parse file__);
     parts := removelast (parts (parse file__)) ++ ["images"%string] |}.
Proof. reflexivity. Qed.

Lemma images_dir_well_formed : well_formed (images_dir file__).
Proof.
  unfold images_dir.
  apply joinpath_well_formed; [apply parent_well_formed|];
    apply parse_well_formed.
Qed.

Lemma images_dir_parts : parts (images_dir file__) <> [].
Proof.
  rewrite images_dir_eq. cbn [parts]. intros H.
  apply app_eq_nil in H as [_ H]. discriminate.
Qed.

(** The stem of the resolved path is the stem of the file name. *)
Lemma stem_get_image_path (image_file : string) :
  parts (parse image_file) <> [] ->
  stem (parse (get_image_path file__ image_file)) = stem (parse image_file).
Proof.
  intros Hne. apply stem_name. unfold get_image_path, name.
  rewrite parts_parse_str.
  - apply (name_joinpath (images_dir file__) (parse image_file) Hne).
  - apply joinpath_well_formed;
      [apply images_dir_well_formed|apply parse_well_formed].
  - now apply parts_joinpath_not_nil.
Qed.

(** A plain name is resolved to an entry of the images directory. *)
Lemma get_image_path_plain (name : string) :
  lacks slash name = true -> is_part name = true ->
  get_image_path file__ name = (str (images_dir file__) ++ "/" ++ name)%string.
Proof.
  intros Hs Hp. unfold get_image_path.
  rewrite (parse_single name Hs Hp).
  apply str_joinpath_single, images_dir_parts.
Qed.

Lemma output_path_of_eq (image_file : string) :
  parts (parse image_file) <> [] ->
  output_path_of file__ (get_image_path file__ image_file)
  = (str (images_dir file__) ++ "/" ++ stem (parse image_file)
     ++ "-resultado.jpg")%string.
Proof.
  intros Hne. unfold output_path_of.
  rewrite (stem_get_image_path image_file Hne).
  apply get_image_path_plain.
  - rewrite lacks_append, stem_lacks_slash by apply parse_well_formed.
    reflexivity.
  - apply is_part_result.
Qed.

End ImagePaths.

(** ** Pixel boxes *)

Lemma pixel_box_eq (width height : Z) (face : CelebrityTypeDef)
      (compared : ComparedFaceTypeDef) (box : BoundingBoxTypeDef)
      (l t w h : pynum) :
  Face face = Some compared ->
  BoundingBox compared = Some box ->
  Left box = Some l -> Top box = Some t ->
  Width box = Some w -> Height box = Some h ->
  pixel_box width height face =
  (left_ <-- to_pixels l width ;;
   top_ <-- to_pixels t height ;;
   lw <-- py_add l w ;;
   right_ <-- to_pixels lw width ;;
   th <-- py_add t h ;;
   bottom_ <-- to_pixels th height ;;
   inr (left_, top_, right_, bottom_))%result.
Proof.
  intros HF HB HL HT HW HH. unfold pixel_box, to_pixels.
  rewrite HF. cbn [getitem rbind]. rewrite HB. cbn [getitem rbind].
  rewrite HL, HT, HW, HH. cbn [getitem rbind].
  destruct (py_mul l (PyInt width)) as [e|lw]; [reflexivity|]. cbn [rbind].
  destruct (py_int lw) as [e|left_]; [reflexivity|]. cbn [rbind].
  destruct (py_mul t (PyInt height)) as [e|th]; [reflexivity|]. cbn [rbind].
  destruct (py_int th) as [e|top_]; [reflexivity|]. cbn [rbind].
  destruct (py_add l w) as [e|r]; [reflexivity|]. cbn [rbind].
  destruct (py_mul r (PyInt width)) as [e|rw]; [reflexivity|]. cbn [rbind].
  destruct (py_int rw) as [e|right_]; [reflexivity|]. cbn [rbind].
  destruct (py_add t h) as [e|b]; [reflexivity|]. cbn [rbind].
  destruct (py_mul b (PyInt height)) as [e|bh]; [reflexivity|]. cbn [rbind].
  destruct (py_int bh) as [e|bottom_]; reflexivity.
Qed.

Lemma draw_face_outline (env : Env) (width height : Z)
      (face : CelebrityTypeDef) (h : list event) (px : Z * Z * Z * Z) :
  pixel_box width height face = inr px ->
  confident face = true ->
  outline_boxes (snd (draw_face env width height face h)) = [px].
Proof.
  intros Hpx Hc.
  destruct (draw_face_drawn env width height face h px Hpx Hc)
    as (bbox & n & Hn & Hout & _).
  rewrite Hout. apply face_events_outline. lia.
Qed.

Lemma draw_face_labels (env : Env) (width height : Z)
      (face : CelebrityTypeDef) (h : list event) (l t r b : Z) :
  pixel_box width height face = inr (l, t, r, b) ->
  confident face = true ->
  (forall xy text,
      In (xy, text) (labels (snd (draw_face env width height face h))) ->
      xy = (l, t - 20) /\ text = name_of face) /\
  (fst (draw_face env width height face h) = inr tt ->
   labels (snd (draw_face env width height face h))
   = [((l, t - 20), name_of face)]).
Proof.
  intros Hpx Hc.
  destruct (draw_face_drawn env width height face h _ Hpx Hc)
    as (bbox & n & Hn & Hout & Hok).
  rewrite Hout, face_events_labels. cbn [fst snd]. split.
  - intros xy text. destruct (4 <=? n)%nat; [|contradiction].
    intros [H|[]]. injection H as <- <-. now split.
  - intros Hr. now rewrite (Hok Hr).
Qed.

(** C1: the pixel box of an entity is left = int(Left x width),
    top = int(Top x height), right = int((Left + Width) x width),
    bottom = int((Top + Height) x height); [int] of a float truncates
    toward zero; the outlined rectangle of a drawn entity is that box; and
    the box Left=0.1, Top=0.2, Width=0.3, Height=0.4 on a 1000x500 image
    becomes (100,100)-(400,300). *)
Theorem pixel_box_formula (env : Env) (width height : Z)
        (face : CelebrityTypeDef) (compared : ComparedFaceTypeDef)
        (box : BoundingBoxTypeDef) (l t w h : pynum) (hist : list event) :
  Face face = Some compared ->
  BoundingBox compared = Some box ->
  Left box = Some l -> Top box = Some t ->
  Width box = Some w -> Height box = Some h ->
  pixel_box width height face =
  (left_ <-- to_pixels l width ;;
   top_ <-- to_pixels t height ;;
   lw <-- py_add l w ;;
   right_ <-- to_pixels lw width ;;
   th <-- py_add t h ;;
   bottom_ <-- to_pixels th height ;;
   inr (left_, top_, right_, bottom_))%result
  /\ (forall z, py_int (PyInt z) = inr z)
  /\ (forall s m e,
         py_int (PyFloat (S754_finite s m e))
         = inr (truncate_toward_zero s m e))
  /\ (forall px,
         pixel_box width height face = inr px ->
         confident face = true ->
         outline_boxes (snd (draw_face env width height face hist)) = [px])
  /\ (forall name confidence,
         pixel_box 1000 500 (celebrity name box_example confidence)
         = inr (100, 100, 400, 300)).
Proof.
  intros HF HB HL HT HW HH. split; [|split; [|split; [|split]]].
  - now apply (pixel_box_eq width height face compared box).
  - reflexivity.
  - intros s m e. simpl. now rewrite float_trunc_toward_zero.
  - intros px. apply draw_face_outline.
  - intros name confidence. vm_compute. reflexivity.
Qed.

Lemma pixel_box_formula_witness :
  pixel_box 1000 500 face_named = inr (100, 100, 400, 300) /\
  outline_boxes (snd (draw_face (calm None) 1000 500 face_named []))
  = [(100, 100, 400, 300)].
Proof.
  destruct (pixel_box_formula (calm None) 1000 500 face_named
              {| BoundingBox := Some box_example |} box_example
              (PyFloat (decimal 1 1)) (PyFloat (decimal 2 1))
              (PyFloat (decimal 3 1)) (PyFloat (decimal 4 1)) []
              eq_refl eq_refl eq_refl eq_refl eq_refl eq_refl)
    as (Heq & _ & _ & Hdraw & Hex).
  split.
  - apply Hex.
  - apply Hdraw; [apply Hex|vm_compute; reflexivity].
Defined.

(** ** The threshold *)

(** C2: in a completed run of the annotator the outlined rectangles are
    the boxes of exactly the entities with confidence above 90, in order,
    each with one label (one filled background and one text); an entity
    that is not above 90 issues no call at all, in any run; in a completed
    run an entity with confidence at most 90 is passed over, an entity
    above 90 issues the outline first and then its label. *)
Theorem drawn_iff_confident (env : Env) (image_path output_path : string)
        (faces : list CelebrityTypeDef) (hist out : list event) :
  draw_face_boxes env image_path output_path faces hist = (inr tt, out) ->
  let width := fst (image_size env hist image_path) in
  let height := snd (image_size env hist image_path) in
  outline_boxes out = map (box_of width height) (filter confident faces) /\
  labels out = map (label_of width height) (filter confident faces) /\
  List.length (filled_boxes out) = List.length (filter confident faces) /\
  (forall w h face hist',
      confident face = false ->
      snd (draw_face env w h face hist') = []) /\
  (forall face h,
      In face faces ->
      (py_le_int (confidence_of face) 90 = true ->
       confident face = false /\
       draw_face env width height face h = (inr tt, [])) /\
      (confident face = false ->
       draw_face env width height face h = (inr tt, [])) /\
      (confident face = true ->
       exists bbox n,
         (1 <= n <= 4)%nat /\
         snd (draw_face env width height face h)
         = firstn n (face_events (box_of width height face)
                                 (name_of face) bbox) /\
         (fst (draw_face env width height face h) = inr tt -> n = 4%nat))).
Proof.
  intros Hrun width height.
  destruct (draw_face_boxes_ok env image_path output_path faces hist out Hrun)
    as (drawn & Hloop & ->).
  fold width height in Hloop.
  destruct (loop_run_outline width height faces _ drawn Hloop)
    as (rest1 & Hout1 & Hrest1).
  destruct (loop_run_labels width height faces _ drawn Hloop)
    as (rest2 & Hout2 & Hrest2).
  destruct (loop_run_complete width height faces drawn Hloop) as [Hall Hlen].
  rewrite (Hrest1 eq_refl), app_nil_r in Hout1.
  rewrite (Hrest2 eq_refl), app_nil_r in Hout2.
  unfold prelude.
  rewrite !outline_boxes_app, !labels_app, !filled_boxes_app.
  cbn [outline_boxes labels filled_boxes app].
  rewrite !app_nil_r.
  split; [now symmetry|]. split; [now symmetry|]. split; [exact Hlen|].
  split.
  { intros w h face hist' Hc.
    destruct (pixel_box w h face) as [e|px] eqn:Hpx.
    - now rewrite (draw_face_raises env w h face hist' e Hpx).
    - now rewrite (draw_face_skipped env w h face hist' px Hpx Hc). }
  intros face h Hin. rewrite Forall_forall in Hall.
  pose proof (Hall face Hin) as Hpx. split; [|split].
  - intros Hle. apply py_le_int_not_gt in Hle.
    split; [exact Hle|]. now apply (draw_face_skipped env _ _ face h _ Hpx).
  - intros Hc. now apply (draw_face_skipped env _ _ face h _ Hpx).
  - intros Hc. now apply draw_face_drawn.
Qed.

Lemma drawn_iff_confident_witness :
  outline_boxes (snd (draw_face_boxes (calm None) "a.jpg" "a-resultado.jpg"
                                      batch_of_three []))
  = [(100, 100, 400, 300)] /\
  labels (snd (draw_face_boxes (calm None) "a.jpg" "a-resultado.jpg"
                               batch_of_three []))
  = [((100, 80), "Ana"%string)].
Proof.
  destruct (draw_face_boxes (calm None) "a.jpg" "a-resultado.jpg"
                            batch_of_three []) as [r out] eqn:Hrun.
  assert (Hr : r = inr tt).
  { apply (f_equal fst) in Hrun. vm_compute in Hrun. now subst r. }
  subst r.
  destruct (drawn_iff_confident (calm None) "a.jpg" "a-resultado.jpg"
              batch_of_three [] out Hrun) as (Ho & Hl & _).
  cbn [snd]. rewrite Ho, Hl. split; vm_compute; reflexivity.
Defined.

(** ** The batch *)

(** C3: when the recognition of a file succeeds with no entity (the key
    absent or the list empty) and the notice is printed, the iteration
    consists of the calls of the recognition client and that one printed
    line: no call of the annotator, no save; the iteration completes and
    the loop goes on with the next file. *)
Theorem no_faces_no_annotation (env : Env) (file__ image_file : string)
        (rest : list string) (hist calls : list event)
        (resp : RecognizeCelebritiesResponseTypeDef) :
  let photo_path := get_image_path file__ image_file in
  recognize_celebrities env photo_path hist = (inr resp, calls) ->
  get (CelebrityFaces resp) [] = [] ->
  raises env (hist ++ calls)
         (Print ("Nenhuma celebridade detectada em: " ++ photo_path)) = None ->
  let out :=
    calls ++ [Print ("Nenhuma celebridade detectada em: " ++ photo_path)] in
  handle_file env file__ image_file hist = (inr tt, out) /\
  existsb annotator_event out = false /\
  saved_paths out = [] /\
  main_loop env file__ (image_file :: rest) hist
  = (fst (main_loop env file__ rest (hist ++ out)),
     out ++ snd (main_loop env file__ rest (hist ++ out))).
Proof.
  intros photo_path Hrec Hfaces Hprint out.
  assert (Hproc : process_file env file__ image_file hist = (inr tt, out)).
  { unfold process_file. cbv zeta. fold photo_path.
    rewrite bind_run, Hrec, Hfaces. unfold print, call_, call.
    rewrite Hprint. reflexivity. }
  assert (Hhandle : handle_file env file__ image_file hist = (inr tt, out)).
  { rewrite handle_file_eq, Hproc. reflexivity. }
  assert (Hquiet : existsb annotator_event out = false).
  { destruct (recognize_celebrities_calls env photo_path hist)
      as (tl & Hcalls & Hnone).
    rewrite Hrec in Hcalls. cbn [snd] in Hcalls. subst out.
    rewrite Hcalls, existsb_app, Hnone. reflexivity. }
  split; [exact Hhandle|]. split; [exact Hquiet|]. split.
  - clear -Hquiet. induction out as [|ev out IH]; [reflexivity|].
    cbn [existsb] in Hquiet. apply orb_false_iff in Hquiet as [Hev Hout].
    destruct ev; try discriminate Hev; cbn [saved_paths]; now apply IH.
  - rewrite main_loop_step, Hhandle. reflexivity.
Qed.

Lemma no_faces_no_annotation_witness :
  handle_file (calm (Some [])) "/srv/app/main.py" "capr.jpeg" []
  = (inr tt,
     recognition_calls (get_image_path "/srv/app/main.py" "capr.jpeg") [] ++
     [Print ("Nenhuma celebridade detectada em: "
             ++ get_image_path "/srv/app/main.py" "capr.jpeg")]).
Proof.
  assert (Hrec : recognize_celebrities (calm (Some []))
                   (get_image_path "/srv/app/main.py" "capr.jpeg") []
                 = (inr {| CelebrityFaces := Some [] |},
                    recognition_calls
                      (get_image_path "/srv/app/main.py" "capr.jpeg") []))
    by reflexivity.
  exact (proj1 (no_faces_no_annotation (calm (Some [])) "/srv/app/main.py"
                  "capr.jpeg" [] [] _ _ Hrec eq_refl eq_refl)).
Defined.

(** C4: whatever the processing of a file raises (the prints inside the
    [try] included) reaches the handler of that file, which prints the file
    name with the message of the exception; when that print returns, the
    iteration completes: then the loop completes and every file of the
    batch is opened, whatever happened to the others.  The one exception
    that leaves the loop is that of the handler's own [print]. *)
Theorem errors_caught_per_file (env : Env) (file__ : string)
        (files : list string) (hist : list event) :
  (forall image_file h,
      handle_file env file__ image_file h =
      match process_file env file__ image_file h with
      | (inr _, out) => (inr tt, out)
      | (inl e, out) =>
          let line := ("Erro ao processar a imagem " ++ image_file
                       ++ ": " ++ str_exn e)%string in
          (match raises env (h ++ out) (Print line) with
           | Some e' => inl e'
           | None => inr tt
           end,
           out ++ [Print line])
      end) /\
  (forall msg,
      str_exn (LibraryError msg) = msg /\
      str_exn (ValueError msg) = msg /\
      str_exn (OverflowError msg) = msg) /\
  map str_exn pixel_box_exceptions
  = ["'Face'"; "'BoundingBox'"; "'Left'"; "'Top'"; "'Width'"; "'Height'";
     "cannot convert float NaN to integer";
     "cannot convert float infinity to integer";
     "int too large to convert to float"]%string /\
  ((forall h image_file e,
       raises env h
              (Print ("Erro ao processar a imagem " ++ image_file
                      ++ ": " ++ str_exn e)) = None) ->
   fst (main_loop env file__ files hist) = inr tt /\
   (forall image_file,
       In image_file files ->
       In (FileOpen (get_image_path file__ image_file))
          (snd (main_loop env file__ files hist))) /\
   (forall image_file rest h,
       main_loop env file__ (image_file :: rest) h =
       let out := snd (handle_file env file__ image_file h) in
       (fst (main_loop env file__ rest (h ++ out)),
        out ++ snd (main_loop env file__ rest (h ++ out))))) /\
  (forall image_file rest h e out e',
      process_file env file__ image_file h = (inl e, out) ->
      raises env (h ++ out)
             (Print ("Erro ao processar a imagem " ++ image_file
                     ++ ": " ++ str_exn e)) = Some e' ->
      main_loop env file__ (image_file :: rest) h
      = (inl e',
         out ++ [Print ("Erro ao processar a imagem " ++ image_file
                        ++ ": " ++ str_exn e)])).
Proof.
  split; [apply handle_file_eq|].
  split; [intros msg; repeat split|].
  split; [reflexivity|].
  split.
  - intros Hlog.
    split; [now apply main_loop_completes|].
    split; [|intros image_file rest h; now apply main_loop_cons].
    intros image_file Hin. now apply main_loop_opens_all.
  - intros image_file rest h e out e' Hproc Hprint.
    rewrite main_loop_step, handle_file_eq, Hproc.
    unfold error_line. now rewrite Hprint.
Qed.

Lemma errors_caught_per_file_witness :
  In (FileOpen (get_image_path "/srv/app/main.py" "riana.jpeg"))
     (snd (main_loop
             (world (Some []) (missing_file "/srv/app/images/capr.jpeg"))
             "/srv/app/main.py" image_files [])).
Proof.
  destruct (errors_caught_per_file
              (world (Some []) (missing_file "/srv/app/images/capr.jpeg"))
              "/srv/app/main.py" image_files [])
    as (_ & _ & _ & Hlogged & _).
  assert (Hlog : forall h image_file e,
             raises (world (Some [])
                           (missing_file "/srv/app/images/capr.jpeg")) h
                    (Print ("Erro ao processar a imagem " ++ image_file
                            ++ ": " ++ str_exn e)) = None)
    by (intros h image_file e; reflexivity).
  destruct (Hlogged Hlog) as (_ & Hopen & _).
  apply Hopen. unfold image_files. right. left. reflexivity.
Defined.

(** ** Output names *)

(** C5: for a file name with a final component, the output path is the
    images directory, a slash, the stem of the file name and
    "-resultado.jpg"; the stem of a name with an extension is the name
    without its last extension, that of a name without a dot is the name; a
    plain input name is resolved inside the same directory; "capr.jpeg"
    gives "capr-resultado.jpg", and so on for the ten files of the
    script. *)
Theorem output_path_derivation (file__ image_file : string) :
  PurePath.parts (PurePath.parse image_file) <> [] ->
  output_path_of file__ (get_image_path file__ image_file)
  = (PurePath.str (images_dir file__) ++ "/"
     ++ PurePath.stem (PurePath.parse image_file) ++ "-resultado.jpg")%string
  /\ (forall base ext,
         PurePath.name (PurePath.parse image_file)
         = (base ++ "." ++ ext)%string ->
         base <> EmptyString -> ext <> EmptyString ->
         PurePath.lacks PurePath.dot ext = true ->
         PurePath.stem (PurePath.parse image_file) = base)
  /\ (PurePath.lacks PurePath.dot (PurePath.name (PurePath.parse image_file))
      = true ->
      PurePath.stem (PurePath.parse image_file)
      = PurePath.name (PurePath.parse image_file))
  /\ (PurePath.lacks PurePath.slash image_file = true ->
      PurePath.is_part image_file = true ->
      get_image_path file__ image_file
      = (PurePath.str (images_dir file__) ++ "/" ++ image_file)%string)
  /\ get_image_path file__ "capr.jpeg"
     = (PurePath.str (images_dir file__) ++ "/capr.jpeg")%string
  /\ output_path_of file__ (get_image_path file__ "capr.jpeg")
     = (PurePath.str (images_dir file__) ++ "/capr-resultado.jpg")%string
  /\ map (fun f => output_path_of file__ (get_image_path file__ f))
         image_files
     = map (fun n => (PurePath.str (images_dir file__) ++ "/" ++ n)%string)
           ["capr-resultado.jpg"; "riana-resultado.jpg";
            "will-resultado.jpg"; "ss-resultado.jpg";
            "pipoquinha-resultado.jpg"; "Bonne-resultado.jpg";
            "ior-resultado.jpg"; "jojo-resultado.jpg";
            "Davi-resultado.jpg"; "sub-resultado.jpg"]%string.
Proof.
  intros Hne. split; [|split; [|split; [|split; [|split; [|split]]]]].
  - now apply output_path_of_eq.
  - intros base ext. apply PurePathFacts.stem_extension.
  - apply PurePathFacts.stem_plain.
  - apply get_image_path_plain.
  - now apply get_image_path_plain.
  - rewrite output_path_of_eq by discriminate. reflexivity.
  - unfold image_files. cbn [map].
    rewrite !output_path_of_eq by discriminate. reflexivity.
Qed.

Lemma output_path_derivation_witness :
  output_path_of "/srv/app/main.py"
                 (get_image_path "/srv/app/main.py" "will.jpg")
  = (PurePath.str (images_dir "/srv/app/main.py") ++ "/"
     ++ PurePath.stem (PurePath.parse "will.jpg") ++ "-resultado.jpg")%string.
Proof.
  assert (Hne : PurePath.parts (PurePath.parse "will.jpg") <> [])
    by discriminate.
  exact (proj1 (output_path_derivation "/srv/app/main.py" "will.jpg" Hne)).
Defined.

(** ** Labels *)

(** C6 as stated fails: the label written for a drawn entity without a
    name is not the one with the text "Unknown". *)
Lemma label_default_is_not_Unknown :
  labels (snd (draw_face (calm None) 1000 500 face_unnamed []))
  <> [((100, 80), get (Name face_unnamed) "Unknown"%string)].
Proof. vm_compute. discriminate. Qed.

(** C6, amended: the label of a drawn entity is its name, "Desconhecido"
    when the name is absent, at (left, top - 20); the text box is asked
    for and the text written at that position. *)
Theorem label_text_and_position (env : Env) (width height : Z)
        (face : CelebrityTypeDef) (hist : list event) (l t r b : Z) :
  pixel_box width height face = inr (l, t, r, b) ->
  confident face = true ->
  let out := snd (draw_face env width height face hist) in
  let text := get (Name face) "Desconhecido"%string in
  (forall n, Name face = Some n -> text = n) /\
  (Name face = None -> text = "Desconhecido"%string) /\
  (forall xy s, In (xy, s) (labels out) -> xy = (l, t - 20) /\ s = text) /\
  (fst (draw_face env width height face hist) = inr tt ->
   labels out = [((l, t - 20), text)] /\
   In (DrawTextbbox (l, t - 20) text) out /\
   In (DrawText (l, t - 20) text "white") out).
Proof.
  intros Hpx Hc out text.
  destruct (draw_face_labels env width height face hist l t r b Hpx Hc)
    as [Hin Hok].
  split; [|split; [|split; [exact Hin|]]].
  - intros n Hn. unfold text. now rewrite Hn.
  - intros Hn. unfold text. now rewrite Hn.
  - intros Hr. split; [now apply Hok|].
    destruct (draw_face_drawn env width height face hist _ Hpx Hc)
      as (bbox & n & _ & Hout & Hn).
    unfold out. rewrite Hout, (Hn Hr). cbn [firstn face_events].
    split; [right; now left|right; right; right; now left].
Qed.

Lemma label_text_and_position_witness :
  labels (snd (draw_face (calm None) 1000 500 face_unnamed []))
  = [((100, 100 - 20), get (Name face_unnamed) "Desconhecido"%string)].
Proof.
  assert (Hpx : pixel_box 1000 500 face_unnamed = inr (100, 100, 400, 300))
    by (vm_compute; reflexivity).
  assert (Hc : confident face_unnamed = true) by (vm_compute; reflexivity).
  assert (Hr : fst (draw_face (calm None) 1000 500 face_unnamed [])
               = inr tt) by (vm_compute; reflexivity).
  destruct (label_text_and_position (calm None) 1000 500 face_unnamed []
              100 100 400 300 Hpx Hc) as (_ & _ & _ & Hok).
  exact (proj1 (Hok Hr)).
Defined.

(** ** Determinism of the positions *)

(** C7: two completed runs of the annotator on the same entities and the
    same image size, in whatever world and from whatever paths, draw the
    same outlined rectangles and write the same labels at the same
    positions; two runs that do not complete draw initial segments of one
    and the same sequence. *)
Theorem positions_deterministic (env1 env2 : Env)
        (image_path1 output_path1 image_path2 output_path2 : string)
        (faces : list CelebrityTypeDef) (hist1 hist2 : list event) :
  image_size env1 hist1 image_path1 = image_size env2 hist2 image_path2 ->
  (forall out1 out2,
      draw_face_boxes env1 image_path1 output_path1 faces hist1
      = (inr tt, out1) ->
      draw_face_boxes env2 image_path2 output_path2 faces hist2
      = (inr tt, out2) ->
      outline_boxes out1 = outline_boxes out2 /\ labels out1 = labels out2) /\
  (forall width height h1 h2,
      let drawn1 := snd (for_each faces (draw_face env1 width height) h1) in
      let drawn2 := snd (for_each faces (draw_face env2 width height) h2) in
      exists boxes texts,
        (exists rest1 rest2,
            boxes = outline_boxes drawn1 ++ rest1 /\
            boxes = outline_boxes drawn2 ++ rest2) /\
        (exists rest1 rest2,
            texts = labels drawn1 ++ rest1 /\
            texts = labels drawn2 ++ rest2)).
Proof.
  intros Hsize. split.
  - intros out1 out2 Hrun1 Hrun2.
    destruct (draw_face_boxes_ok env1 _ _ faces hist1 out1 Hrun1)
      as (drawn1 & Hloop1 & ->).
    destruct (draw_face_boxes_ok env2 _ _ faces hist2 out2 Hrun2)
      as (drawn2 & Hloop2 & ->).
    rewrite Hsize in Hloop1.
    set (width := fst (image_size env2 hist2 image_path2)) in *.
    set (height := snd (image_size env2 hist2 image_path2)) in *.
    destruct (loop_run_outline width height faces _ _ Hloop1)
      as (r1 & Ho1 & Hr1).
    destruct (loop_run_outline width height faces _ _ Hloop2)
      as (r2 & Ho2 & Hr2).
    destruct (loop_run_labels width height faces _ _ Hloop1)
      as (s1 & Hl1 & Hs1).
    destruct (loop_run_labels width height faces _ _ Hloop2)
      as (s2 & Hl2 & Hs2).
    rewrite (Hr1 eq_refl), app_nil_r in Ho1.
    rewrite (Hr2 eq_refl), app_nil_r in Ho2.
    rewrite (Hs1 eq_refl), app_nil_r in Hl1.
    rewrite (Hs2 eq_refl), app_nil_r in Hl2.
    unfold prelude. rewrite !outline_boxes_app, !labels_app.
    cbn [outline_boxes labels app]. rewrite !app_nil_r.
    split; congruence.
  - intros width height h1 h2 drawn1 drawn2.
    destruct (loop_run_outline width height faces _ _
                (for_each_loop_run env1 width height faces h1))
      as (r1 & Ho1 & _).
    destruct (loop_run_outline width height faces _ _
                (for_each_loop_run env2 width height faces h2))
      as (r2 & Ho2 & _).
    destruct (loop_run_labels width height faces _ _
                (for_each_loop_run env1 width height faces h1))
      as (s1 & Hl1 & _).
    destruct (loop_run_labels width height faces _ _
                (for_each_loop_run env2 width height faces h2))
      as (s2 & Hl2 & _).
    exists (map (box_of width height) (filter confident faces)),
           (map (label_of width height) (filter confident faces)).
    split; [exists r1, r2|exists s1, s2]; now split.
Qed.

Lemma positions_deterministic_witness :
  labels (snd (draw_face_boxes (calm None) "a.jpg" "a-resultado.jpg"
                               batch_of_three []))
  = labels (snd (draw_face_boxes (world (Some []) (missing_file "b.jpg"))
                                 "c.jpg" "d.jpg" batch_of_three
                                 [Print "before"])).
Proof.
  destruct (draw_face_boxes (calm None) "a.jpg" "a-resultado.jpg"
                            batch_of_three []) as [r1 out1] eqn:Hrun1.
  destruct (draw_face_boxes (world (Some []) (missing_file "b.jpg"))
                            "c.jpg" "d.jpg" batch_of_three
                            [Print "before"]) as [r2 out2] eqn:Hrun2.
  assert (Hr1 : r1 = inr tt).
  { apply (f_equal fst) in Hrun1. vm_compute in Hrun1. now subst r1. }
  assert (Hr2 : r2 = inr tt).
  { apply (f_equal fst) in Hrun2. vm_compute in Hrun2. now subst r2. }
  subst r1 r2.
  destruct (positions_deterministic
              (calm None) (world (Some []) (missing_file "b.jpg"))
              "a.jpg" "a-resultado.jpg" "c.jpg" "d.jpg" batch_of_three
              [] [Print "before"] eq_refl) as [Hsame _].
  exact (proj2 (Hsame out1 out2 Hrun1 Hrun2)).
Defined.

(** ** Saving *)

(** C8: where no call raises and every box converts, the annotator run
    on entities that all have confidence at most 90 issues its prelude, no
    drawing call, the save to the output path and the confirmation line;
    and any completed run, whatever the confidences, saved exactly once,
    to the output path. *)
Theorem save_is_unconditional (env : Env) (image_path output_path : string)
        (faces : list CelebrityTypeDef) (hist : list event) :
  let width := fst (image_size env hist image_path) in
  let height := snd (image_size env hist image_path) in
  (never_raises env ->
   faces <> [] ->
   Forall (fun face => py_le_int (confidence_of face) 90 = true) faces ->
   Forall (fun face => exists px, pixel_box width height face = inr px)
          faces ->
   draw_face_boxes env image_path output_path faces hist
   = (inr tt,
      prelude image_path ++
      [ImageSave output_path;
       Print ("Imagem processada e salva em: " ++ output_path)])) /\
  (forall out,
      draw_face_boxes env image_path output_path faces hist = (inr tt, out) ->
      saved_paths out = [output_path] /\
      exists drawn,
        out = prelude image_path ++ drawn ++
              [ImageSave output_path;
               Print ("Imagem processada e salva em: " ++ output_path)]).
Proof.
  intros width height. split.
  - intros Hcalm _ Hlow Hboxes.
    rewrite draw_face_boxes_eq, !Hcalm.
    destruct (image_size env hist image_path) as [w h] eqn:Hsize.
    cbn [fst snd] in width, height. cbv zeta.
    rewrite (loop_calm env w h faces Hcalm Hboxes), Hcalm.
    assert (Hnone : snd (for_each faces (draw_face env w h)
                           (hist ++ prelude image_path)) = []).
    { apply (loop_run_nothing_drawn w h faces _ _
               (for_each_loop_run env w h faces _)).
      eapply Forall_impl; [|exact Hlow].
      intros face. apply py_le_int_not_gt. }
    rewrite Hnone, Hcalm. reflexivity.
  - intros out Hrun.
    destruct (draw_face_boxes_ok env _ _ faces hist out Hrun)
      as (drawn & Hloop & ->).
    destruct (loop_run_draws_only _ _ _ _ _ Hloop) as [Hsaved _].
    split; [|now exists drawn].
    unfold prelude. rewrite !saved_paths_app, Hsaved. reflexivity.
Qed.

Lemma save_is_unconditional_witness :
  draw_face_boxes (calm None) "a.jpg" "a-resultado.jpg"
                  [face_at_threshold; face_without_confidence] []
  = (inr tt,
     prelude "a.jpg" ++
     [ImageSave "a-resultado.jpg";
      Print ("Imagem processada e salva em: " ++ "a-resultado.jpg")]).
Proof.
  destruct (save_is_unconditional (calm None) "a.jpg" "a-resultado.jpg"
              [face_at_threshold; face_without_confidence] [])
    as [Hsave _].
  apply Hsave.
  - intros h ev. reflexivity.
  - discriminate.
  - repeat constructor.
  - repeat constructor; eexists; vm_compute; reflexivity.
Defined.

(** ** Missing confidence *)

(** C9: an entity without the confidence key has confidence 0, which is
    not above 90: no call is issued for it, and when its box converts the
    loop passes over it. *)
Theorem missing_confidence_skipped (env : Env) (width height : Z)
        (face : CelebrityTypeDef) (hist : list event) :
  MatchConfidence face = None ->
  confidence_of face = PyInt 0 /\
  confident face = false /\
  snd (draw_face env width height face hist) = [] /\
  (forall px,
      pixel_box width height face = inr px ->
      draw_face env width height face hist = (inr tt, [])).
Proof.
  intros Hnone.
  assert (Hconf : confidence_of face = PyInt 0)
    by (unfold confidence_of; now rewrite Hnone).
  assert (Hc : confident face = false)
    by (unfold confident; now rewrite Hconf).
  split; [exact Hconf|]. split; [exact Hc|]. split.
  - destruct (pixel_box width height face) as [e|px] eqn:Hpx.
    + now rewrite (draw_face_raises env width height face hist e Hpx).
    + now rewrite (draw_face_skipped env width height face hist px Hpx Hc).
  - intros px Hpx. now apply (draw_face_skipped env width height face hist px).
Qed.

Lemma missing_confidence_skipped_witness :
  draw_face (calm None) 1000 500 face_without_confidence [] = (inr tt, []).
Proof.
  destruct (missing_confidence_skipped (calm None) 1000 500
              face_without_confidence [] eq_refl) as (_ & _ & _ & Hskip).
  apply (Hskip (100, 100, 400, 300)). vm_compute. reflexivity.
Defined.

(** ** No clamping *)

(** C10: whatever the fractions of the box, the pixel box is computed by
    the one formula and the outlined rectangle of a drawn entity is that
    box as computed; the label goes to (left, top - 20), which has a
    negative vertical coordinate when top is below 20; and a box with
    fractions outside [0,1] on a 1000x500 image is drawn outside the image,
    with its label above the upper edge. *)
Theorem no_clamping (env : Env) (width height : Z) (face : CelebrityTypeDef)
        (compared : ComparedFaceTypeDef) (box : BoundingBoxTypeDef)
        (l t w h : pynum) (hist : list event) :
  Face face = Some compared ->
  BoundingBox compared = Some box ->
  Left box = Some l -> Top box = Some t ->
  Width box = Some w -> Height box = Some h ->
  pixel_box width height face =
  (left_ <-- to_pixels l width ;;
   top_ <-- to_pixels t height ;;
   lw <-- py_add l w ;;
   right_ <-- to_pixels lw width ;;
   th <-- py_add t h ;;
   bottom_ <-- to_pixels th height ;;
   inr (left_, top_, right_, bottom_))%result
  /\ (forall left_ top_ right_ bottom_,
         pixel_box width height face = inr (left_, top_, right_, bottom_) ->
         confident face = true ->
         let out := snd (draw_face env width height face hist) in
         outline_boxes out = [(left_, top_, right_, bottom_)] /\
         (fst (draw_face env width height face hist) = inr tt ->
          labels out = [((left_, top_ - 20), name_of face)]) /\
         (top_ < 20 ->
          forall xy text, In (xy, text) (labels out) -> snd xy < 0))
  /\ (pixel_box 1000 500 face_outside = inr (1500, 10, 1800, -190) /\
      inside_image 1000 500 (1500, 10, 1800, -190) = false /\
      outline_boxes (snd (draw_face env 1000 500 face_outside hist))
      = [(1500, 10, 1800, -190)]).
Proof.
  intros HF HB HL HT HW HH. split; [|split].
  - now apply (pixel_box_eq width height face compared box).
  - intros left_ top_ right_ bottom_ Hpx Hc out.
    destruct (draw_face_labels env width height face hist _ _ _ _ Hpx Hc)
      as [Hin Hok].
    split; [now apply draw_face_outline|]. split; [exact Hok|].
    intros Htop xy text Hxy. destruct (Hin xy text Hxy) as [-> _].
    cbn [snd]. lia.
  - assert (Hpx : pixel_box 1000 500 face_outside
                  = inr (1500, 10, 1800, -190)) by (vm_compute; reflexivity).
    split; [exact Hpx|]. split; [reflexivity|].
    apply draw_face_outline; [exact Hpx|vm_compute; reflexivity].
Qed.

Lemma no_clamping_witness :
  outline_boxes (snd (draw_face (calm None) 1000 500 face_outside []))
  = [(1500, 10, 1800, -190)] /\
  (forall xy text,
      In (xy, text)
         (labels (snd (draw_face (calm None) 1000 500 face_outside []))) ->
      snd xy < 0).
Proof.
  destruct (no_clamping (calm None) 1000 500 face_outside
              {| BoundingBox := Some box_outside |} box_outside
              (PyFloat (decimal 15 1)) (PyFloat (decimal 2 2))
              (PyFloat (decimal 3 1)) (PyFloat (decimal (-4) 1)) []
              eq_refl eq_refl eq_refl eq_refl eq_refl eq_refl)
    as (_ & Hdraw & Hpx & _ & _).
  assert (Hc : confident face_outside = true) by (vm_compute; reflexivity).
  destruct (Hdraw 1500 10 1800 (-190) Hpx Hc) as (Ho & _ & Hneg).
  split; [exact Ho|]. apply Hneg. lia.
Defined.

(** ** Runs of the script on sample worlds *)

Example run_with_missing_file :
  printed (snd (main_loop
                  (world (Some [face_named])
                         (missing_file "/srv/app/images/capr.jpeg"))
                  "/srv/app/main.py" ["capr.jpeg"; "riana.jpeg"] []))
  = ["Erro ao processar a imagem capr.jpeg: failed";
     "Imagem processada e salva em: /srv/app/images/riana-resultado.jpg"]%string.
Proof. vm_compute. reflexivity. Qed.

Example run_with_unboxed_face :
  main_loop (calm (Some [face_named;
                         {| Name := None; Face := None;
                            MatchConfidence := None |}]))
            "/srv/app/main.py" ["ss.jpg"] []
  = (inr tt,
     recognition_calls "/srv/app/images/ss.jpg" [] ++
     prelude "/srv/app/images/ss.jpg" ++
     face_events (100, 100, 400, 300) "Ana" (100, 80, 130, 100) ++
     [Print "Erro ao processar a imagem ss.jpg: 'Face'"]).
Proof. vm_compute. reflexivity. Qed.

Example int_truncates :
  to_pixels (PyFloat (decimal 29 2)) 100 = inr 28 /\
  to_pixels (PyFloat (decimal (-29) 2)) 100 = inr (-28).
Proof. split; vm_compute; reflexivity. Qed.

(** * Further properties of the script *)

(** ** What each part of the script issues *)

Lemma file_opens_app (a b : list event) :
  file_opens (a ++ b) = file_opens a ++ file_opens b.
Proof.
  induction a as [|ev a IH]; [reflexivity|].
  destruct ev; simpl; try exact IH. f_equal. exact IH.
Qed.

Lemma image_opens_app (a b : list event) :
  image_opens (a ++ b) = image_opens a ++ image_opens b.
Proof.
  induction a as [|ev a IH]; [reflexivity|].
  destruct ev; simpl; try exact IH. f_equal. exact IH.
Qed.

Lemma printed_app (a b : list event) :
  printed (a ++ b) = printed a ++ printed b.
Proof.
  induction a as [|ev a IH]; [reflexivity|].
  destruct ev; simpl; try exact IH. f_equal. exact IH.
Qed.

Lemma recognized_app (a b : list event) :
  recognized (a ++ b) = recognized a ++ recognized b.
Proof.
  induction a as [|ev a IH]; [reflexivity|].
  destruct ev; simpl; try exact IH. f_equal. exact IH.
Qed.

Lemma face_events_annotator (px bbox : Z * Z * Z * Z) (name : string)
      (n : nat) :
  Forall (fun ev => annotator_event ev = true)
         (firstn n (face_events px name bbox)).
Proof.
  destruct px as [[[l t] r] b].
  destruct n as [|[|[|[|[|n]]]]]; repeat constructor.
Qed.

(** The loop over the faces issues drawing calls only. *)
Lemma loop_run_annotator_only (width height : Z) faces r out :
  loop_run width height faces r out ->
  Forall (fun ev => annotator_event ev = true) out /\
  file_opens out = [] /\ image_opens out = [] /\ recognized out = [].
Proof.
  induction 1 as [|face faces e Hpx|face faces px r out Hpx Hc _ IH
                  |face faces px bbox r out Hpx Hc _ IH
                  |face faces px bbox n e Hpx Hc Hn].
  - repeat split. constructor.
  - repeat split. constructor.
  - exact IH.
  - destruct IH as (Hall & Hf & Hi & Hr). split.
    + apply Forall_app. split; [|exact Hall].
      rewrite <- (firstn_face_events px bbox (name_of face)).
      apply face_events_annotator.
    + destruct px as [[[l t] rr] b]. simpl. now repeat split.
  - split; [apply face_events_annotator|].
    destruct px as [[[l t] rr] b].
    destruct n as [|[|[|[|[|n]]]]]; repeat split.
Qed.

Section Traces.

Variable env : Env.
Variable file__ : string.

Lemma recognize_celebrities_trace (photo_path : string) (h : list event) :
  let out := snd (recognize_celebrities env photo_path h) in
  file_opens out = [photo_path] /\ image_opens out = [] /\
  printed out = [] /\ saved_paths out = [] /\
  outline_boxes out = [] /\ labels out = [].
Proof.
  cbv zeta. rewrite recognize_celebrities_eq.
  destruct (raises env h (FileOpen photo_path)); [repeat split|].
  destruct (raises env _ (FileRead photo_path)); [repeat split|].
  cbv zeta. destruct (raises env _ (RecognizeCelebrities _)); repeat split.
Qed.

(** The three ways a run of the annotator can end: before the save, at a
    save that raises, or at the confirmation line after the save. *)
Lemma draw_face_boxes_trace (image_path output_path : string)
      (faces : list CelebrityTypeDef) (h : list event) :
  let run := draw_face_boxes env image_path output_path faces h in
  let line := ("Imagem processada e salva em: " ++ output_path)%string in
  file_opens (snd run) = [] /\
  image_opens (snd run) = [image_path] /\
  recognized (snd run) = [] /\
  Forall (fun ev => annotator_event ev = true \/ ev = Print line) (snd run) /\
  ((printed (snd run) = [] /\ saved_paths (snd run) = [] /\
    exists e, fst run = inl e) \/
   (printed (snd run) = [] /\ saved_paths (snd run) = [output_path] /\
    (exists e, fst run = inl e) /\
    exists before, snd run = before ++ [ImageSave output_path]) \/
   (printed (snd run) = [line] /\ saved_paths (snd run) = [output_path] /\
    exists before,
      snd run = before ++ [ImageSave output_path; Print line] /\
      fst run = match raises env (h ++ before ++ [ImageSave output_path])
                             (Print line) with
                | Some e => inl e
                | None => inr tt
                end)).
Proof.
  cbv zeta. rewrite draw_face_boxes_eq.
  destruct (raises env h (ImageOpen image_path)) as [e1|].
  { repeat split; [repeat constructor; now left|].
    left. split; [reflexivity|]. split; [reflexivity|]. now exists e1. }
  destruct (raises env _ ImageDrawDraw) as [e2|].
  { repeat split; [repeat constructor; now left|].
    left. split; [reflexivity|]. split; [reflexivity|]. now exists e2. }
  destruct (raises env _ (FontTruetype _ _)) as [e3|].
  { repeat split; [repeat constructor; now left|].
    left. split; [reflexivity|]. split; [reflexivity|]. now exists e3. }
  destruct (image_size env h image_path) as [width height]. cbv zeta.
  pose proof (for_each_loop_run env width height faces
                (h ++ prelude image_path)) as Hrun.
  destruct (for_each faces (draw_face env width height)
              (h ++ prelude image_path)) as [r drawn].
  cbn [fst snd] in Hrun |- *.
  destruct (loop_run_draws_only _ _ _ _ _ Hrun) as [Hsaved Hprinted].
  destruct (loop_run_annotator_only _ _ _ _ _ Hrun)
    as (Hall & Hfile & Himage & Hrec).
  assert (Hpre : forall tail,
             Forall (fun ev =>
                       annotator_event ev = true \/
                       ev = Print ("Imagem processada e salva em: "
                                   ++ output_path)%string) tail ->
             Forall (fun ev =>
                       annotator_event ev = true \/
                       ev = Print ("Imagem processada e salva em: "
                                   ++ output_path)%string)
                    (prelude image_path ++ drawn ++ tail)).
  { intros tail Htail.
    apply Forall_app. split; [repeat constructor; now left|].
    apply Forall_app. split; [|exact Htail].
    eapply Forall_impl; [|exact Hall]. intros ev Hev. now left. }
  destruct r as [e|[]].
  { cbn [fst snd].
    pose proof (Hpre [] (Forall_nil _)) as Hevents.
    rewrite app_nil_r in Hevents. unfold prelude in *.
    rewrite file_opens_app, image_opens_app, recognized_app, printed_app,
      saved_paths_app, Hfile, Himage, Hrec, Hprinted, Hsaved.
    cbn [file_opens image_opens recognized printed saved_paths app].
    repeat split; [exact Hevents|]. left.
    split; [reflexivity|]. split; [reflexivity|]. now exists e. }
  destruct (raises env _ (ImageSave output_path)) as [e|].
  { cbn [fst snd].
    assert (Hevents := Hpre [ImageSave output_path]).
    unfold prelude in *.
    rewrite !file_opens_app, !image_opens_app, !recognized_app, !printed_app,
      !saved_paths_app, Hfile, Himage, Hrec, Hprinted, Hsaved.
    cbn [file_opens image_opens recognized printed saved_paths app].
    repeat split.
    - apply Hevents. repeat constructor.
    - right. left. split; [reflexivity|]. split; [reflexivity|].
      split; [now exists e|].
      exists (ImageOpen image_path :: ImageDrawDraw
              :: FontTruetype "Ubuntu-R.ttf" 20 :: drawn).
      reflexivity. }
  cbv zeta. cbn [fst snd].
  assert (Hevents := Hpre [ImageSave output_path;
                           Print ("Imagem processada e salva em: "
                                  ++ output_path)%string]).
  unfold prelude in *.
  rewrite !file_opens_app, !image_opens_app, !recognized_app, !printed_app,
    !saved_paths_app, Hfile, Himage, Hrec, Hprinted, Hsaved.
  cbn [file_opens image_opens recognized printed saved_paths app].
  repeat split.
  - apply Hevents.
    constructor; [now left|]. constructor; [now right|constructor].
  - right. right. split; [reflexivity|]. split; [reflexivity|].
    exists (ImageOpen image_path :: ImageDrawDraw
            :: FontTruetype "Ubuntu-R.ttf" 20 :: drawn).
    split; reflexivity.
Qed.

(** One run of the body of the [try]: the file is opened once with
    [open], at most once with [Image.open], and saved at most once. *)
Lemma process_file_trace (image_file : string) (h : list event) :
  let out := snd (process_file env file__ image_file h) in
  let photo_path := get_image_path file__ image_file in
  file_opens out = [photo_path] /\
  (image_opens out = [] \/ image_opens out = [photo_path]) /\
  (saved_paths out = [] \/
   saved_paths out = [output_path_of file__ photo_path]).
Proof.
  cbv zeta. unfold process_file. cbv zeta. rewrite bind_run.
  set (photo_path := get_image_path file__ image_file).
  destruct (recognize_celebrities_trace photo_path h)
    as (Hf & Hi & _ & Hs & _).
  cbv zeta in Hf, Hi, Hs.
  destruct (recognize_celebrities env photo_path h) as [[e|resp] calls];
    cbn [fst snd] in Hf, Hi, Hs |- *.
  { split; [exact Hf|]. split; now left. }
  rewrite file_opens_app, image_opens_app, saved_paths_app, Hf, Hi, Hs.
  cbn [app].
  destruct (get (CelebrityFaces resp) []) as [|face faces].
  - unfold print, call_, call.
    destruct (raises env _ (Print _)); cbn [snd file_opens image_opens
                                              saved_paths];
      (split; [reflexivity|split; now left]).
  - destruct (draw_face_boxes_trace photo_path
                (output_path_of file__ photo_path) (face :: faces)
                (h ++ calls)) as (Hf' & Hi' & _ & _ & Hend).
    cbv zeta in Hf', Hi', Hend. rewrite Hf', Hi'.
    split; [reflexivity|]. split; [now right|].
    destruct Hend as [(_ & Hs' & _)|[(_ & Hs' & _)|(_ & Hs' & _)]];
      rewrite Hs'; [now left|now right|now right].
Qed.

(** One iteration of the main loop. *)
Lemma handle_file_trace (image_file : string) (h : list event) :
  let out := snd (handle_file env file__ image_file h) in
  let photo_path := get_image_path file__ image_file in
  file_opens out = [photo_path] /\
  (image_opens out = [] \/ image_opens out = [photo_path]) /\
  (saved_paths out = [] \/
   saved_paths out = [output_path_of file__ photo_path]).
Proof.
  cbv zeta. rewrite handle_file_eq.
  destruct (process_file_trace image_file h) as (Hf & Hi & Hs).
  cbv zeta in Hf, Hi, Hs.
  destruct (process_file env file__ image_file h) as [[e|[]] out];
    cbn [fst snd] in Hf, Hi, Hs |- *; [|now repeat split].
  rewrite file_opens_app, image_opens_app, saved_paths_app.
  cbn [file_opens image_opens saved_paths]. rewrite !app_nil_r.
  now repeat split.
Qed.

(** With a console that works, an iteration completes and prints one
    line. *)
Lemma handle_file_line (image_file : string) (h : list event) :
  console_works env ->
  fst (handle_file env file__ image_file h) = inr tt /\
  exists line,
    printed (snd (handle_file env file__ image_file h)) = [line] /\
    line_for file__ image_file line.
Proof.
  intros Hconsole. rewrite handle_file_eq.
  unfold process_file. cbv zeta. rewrite bind_run.
  set (photo_path := get_image_path file__ image_file).
  destruct (recognize_celebrities_trace photo_path h)
    as (_ & _ & Hp & _).
  cbv zeta in Hp.
  destruct (recognize_celebrities env photo_path h) as [[e|resp] calls];
    cbn [fst snd] in Hp |- *.
  { rewrite Hconsole, printed_app, Hp. split; [reflexivity|].
    eexists. split; [reflexivity|]. right. right. now exists e. }
  destruct (get (CelebrityFaces resp) []) as [|face faces].
  - unfold print, call_, call. rewrite Hconsole. cbn [fst snd].
    rewrite printed_app, Hp. split; [reflexivity|].
    eexists. split; [reflexivity|]. now left.
  - destruct (draw_face_boxes_trace photo_path
                (output_path_of file__ photo_path) (face :: faces)
                (h ++ calls)) as (_ & _ & _ & _ & Hend).
    cbv zeta in Hend.
    destruct (draw_face_boxes env photo_path
                (output_path_of file__ photo_path) (face :: faces)
                (h ++ calls)) as [r out].
    cbn [fst snd] in Hend |- *.
    destruct Hend as [(Hp' & _ & e & ->)|[(Hp' & _ & (e & ->) & _)
                                         |(Hp' & _ & before & _ & Hr)]].
    + cbn [fst snd]. rewrite Hconsole, !printed_app, Hp, Hp'.
      split; [reflexivity|].
      eexists. split; [reflexivity|]. right. right. now exists e.
    + cbn [fst snd]. rewrite Hconsole, !printed_app, Hp, Hp'.
      split; [reflexivity|].
      eexists. split; [reflexivity|]. right. right. now exists e.
    + rewrite Hconsole in Hr. subst r. cbn [fst snd].
      rewrite printed_app, Hp, Hp'. split; [reflexivity|].
      eexists. split; [reflexivity|]. right. now left.
Qed.

End Traces.

(** ** The batch, file by file *)



(** X2: with a console that works, the loop completes and the console
    shows exactly one line per file of the batch, in the order of the
    list: the notice that nothing was detected, the confirmation of the
    save, or the error line of that file. *)
Theorem one_line_per_file (env : Env) (file__ : string)
        (files : list string) (hist : list event) :
  console_works env ->
  fst (main_loop env file__ files hist) = inr tt /\
  Forall2 (line_for file__) files
          (printed (snd (main_loop env file__ files hist))).
Proof.
  intros Hconsole. revert hist.
  induction files as [|f files IH]; intros hist.
  - split; [reflexivity|constructor].
  - rewrite main_loop_step.
    destruct (handle_file_line env file__ f hist Hconsole)
      as (Hr & line & Hline & Hform).
    destruct (handle_file env file__ f hist) as [r out].
    cbn [fst snd] in Hr, Hline. subst r.
    destruct (IH (hist ++ out)) as [Hr' Hlines].
    cbn [fst snd]. split; [exact Hr'|].
    rewrite printed_app, Hline. cbn [app].
    constructor; [exact Hform|exact Hlines].
Qed.

Lemma one_line_per_file_witness :
  Forall2 (line_for "/srv/app/main.py") image_files
          (printed (snd (main_loop
                           (world (Some [face_named])
                                  (missing_file "/srv/app/images/ss.jpg"))
                           "/srv/app/main.py" image_files []))).
Proof.
  assert (Hconsole : console_works
                       (world (Some [face_named])
                              (missing_file "/srv/app/images/ss.jpg")))
    by (intros h line; reflexivity).
  exact (proj2 (one_line_per_file _ "/srv/app/main.py" image_files []
                  Hconsole)).
Defined.

(** X3: the paths the batch saves to are, in the order of the list, the
    output paths of some of its files, one save for each of them: no file
    is saved twice, nothing is saved anywhere else. *)
Theorem batch_saves_once_per_file (env : Env) (file__ : string)
        (files : list string) (hist : list event) :
  exists flags,
    saved_paths (snd (main_loop env file__ files hist))
    = map (fun f => output_path_of file__ (get_image_path file__ f))
          (select flags files).
Proof.
  revert hist. induction files as [|f files IH]; intros hist.
  - now exists [].
  - rewrite main_loop_step.
    destruct (handle_file_trace env file__ f hist) as (_ & _ & Hs).
    cbv zeta in Hs.
    destruct (handle_file env file__ f hist) as [[e|[]] out];
      cbn [fst snd] in Hs |- *.
    + destruct Hs as [Hs|Hs]; rewrite Hs.
      * exists [false]. cbn [select]. now destruct files.
      * exists [true]. cbn [select]. now destruct files.
    + destruct (IH (hist ++ out)) as (flags & Hflags).
      rewrite saved_paths_app, Hflags.
      destruct Hs as [Hs|Hs]; rewrite Hs.
      * now exists (false :: flags).
      * now exists (true :: flags).
Qed.

(** ** The annotator, whatever happens *)

(** X4: a completed run of the annotator saved once, to its output path,
    and then printed its confirmation line; a run that raises stopped
    before the save, with nothing saved and nothing printed, or at the
    save, or at the confirmation line after the save.  The annotator
    applies [Image.open] once, to its input path, and issues no call but
    those to the imaging library and that one [print]: it does not use
    [open] and does not call the service. *)
Theorem annotator_outcomes (env : Env) (image_path output_path : string)
        (faces : list CelebrityTypeDef) (hist : list event) :
  let run := draw_face_boxes env image_path output_path faces hist in
  let line := ("Imagem processada e salva em: " ++ output_path)%string in
  (fst run = inr tt ->
   printed (snd run) = [line] /\ saved_paths (snd run) = [output_path] /\
   exists before, snd run = before ++ [ImageSave output_path; Print line]) /\
  (forall e,
      fst run = inl e ->
      (printed (snd run) = [] /\ saved_paths (snd run) = []) \/
      (printed (snd run) = [] /\
       exists before, snd run = before ++ [ImageSave output_path]) \/
      (exists before,
          snd run = before ++ [ImageSave output_path; Print line] /\
          raises env (hist ++ before ++ [ImageSave output_path])
                 (Print line) = Some e)) /\
  image_opens (snd run) = [image_path] /\
  file_opens (snd run) = [] /\
  recognized (snd run) = [] /\
  Forall (fun ev => annotator_event ev = true \/ ev = Print line) (snd run).
Proof.
  cbv zeta.
  destruct (draw_face_boxes_trace env image_path output_path faces hist)
    as (Hf & Hi & Hrec & Hall & Hend).
  cbv zeta in Hf, Hi, Hrec, Hall, Hend.
  split; [|split; [|now repeat split]].
  - intros Hr.
    destruct Hend as [(_ & _ & e & He)|[(_ & _ & (e & He) & _)
                                       |(Hp & Hs & before & Hout & _)]].
    + rewrite Hr in He. discriminate He.
    + rewrite Hr in He. discriminate He.
    + split; [exact Hp|]. split; [exact Hs|]. now exists before.
  - intros e He.
    destruct Hend as [(Hp & Hs & _)|[(Hp & _ & _ & Hlast)
                                    |(_ & _ & before & Hout & Hr)]].
    + left. now split.
    + right. left. now split.
    + right. right. exists before. split; [exact Hout|].
      rewrite He in Hr.
      destruct (raises env _ (Print _)) as [e'|]; [|discriminate Hr].
      now injection Hr as ->.
Qed.

Lemma annotator_outcomes_witness :
  printed (snd (draw_face_boxes (world None (failing_save "b.jpg"))
                                "a.jpg" "b.jpg" batch_of_three []))
  = [] /\
  exists before,
    snd (draw_face_boxes (world None (failing_save "b.jpg"))
                         "a.jpg" "b.jpg" batch_of_three [])
    = before ++ [ImageSave "b.jpg"].
Proof.
  assert (He : fst (draw_face_boxes (world None (failing_save "b.jpg"))
                                    "a.jpg" "b.jpg" batch_of_three [])
               = inl (LibraryError "failed")) by (vm_compute; reflexivity).
  destruct (annotator_outcomes
              (world None (failing_save "b.jpg")) "a.jpg" "b.jpg"
              batch_of_three []) as (_ & Hraise & _).
  destruct (Hraise _ He) as [[_ Hs]|[Hsave|(before & _ & Hprint)]].
  - exfalso. vm_compute in Hs. discriminate Hs.
  - exact Hsave.
  - exfalso. discriminate Hprint.
Defined.

(** X5: when the box of one entity of the list cannot be converted (a key
    is missing, a value is not finite), the annotator raises, saves nothing
    and prints nothing, whatever the confidence of that entity. *)
Theorem bad_box_aborts_before_save (env : Env)
        (image_path output_path : string) (faces : list CelebrityTypeDef)
        (hist : list event) :
  let width := fst (image_size env hist image_path) in
  let height := snd (image_size env hist image_path) in
  let run := draw_face_boxes env image_path output_path faces hist in
  Exists (fun face => exists e, pixel_box width height face = inl e) faces ->
  (exists e, fst run = inl e) /\
  saved_paths (snd run) = [] /\
  printed (snd run) = [].
Proof.
  cbv zeta. intros Hbad. rewrite draw_face_boxes_eq.
  destruct (raises env hist (ImageOpen image_path)) as [e1|].
  { split; [now exists e1|split; reflexivity]. }
  destruct (raises env _ ImageDrawDraw) as [e2|].
  { split; [now exists e2|split; reflexivity]. }
  destruct (raises env _ (FontTruetype _ _)) as [e3|].
  { split; [now exists e3|split; reflexivity]. }
  destruct (image_size env hist image_path) as [width height].
  cbn [fst snd] in Hbad. cbv zeta.
  pose proof (for_each_loop_run env width height faces
                (hist ++ prelude image_path)) as Hrun.
  destruct (for_each faces (draw_face env width height)
              (hist ++ prelude image_path)) as [[e|[]] drawn];
    cbn [fst snd] in Hrun |- *.
  - destruct (loop_run_draws_only _ _ _ _ _ Hrun) as [Hsaved Hprinted].
    split; [now exists e|]. unfold prelude.
    rewrite saved_paths_app, printed_app, Hsaved, Hprinted.
    split; reflexivity.
  - exfalso.
    destruct (loop_run_complete _ _ _ _ Hrun) as [Hall _].
    rewrite Forall_forall in Hall. apply Exists_exists in Hbad.
    destruct Hbad as (face & Hin & e & He).
    rewrite (Hall face Hin) in He. discriminate.
Qed.

Lemma bad_box_aborts_before_save_witness :
  saved_paths (snd (draw_face_boxes (calm None) "a.jpg" "b.jpg"
                                    [face_named; face_without_box] []))
  = [].
Proof.
  assert (Hbad : Exists (fun face =>
                           exists e, pixel_box 1000 500 face = inl e)
                        [face_named; face_without_box]).
  { apply Exists_cons_tl, Exists_cons_hd.
    exists (KeyError "Face"). reflexivity. }
  destruct (bad_box_aborts_before_save (calm None) "a.jpg" "b.jpg"
              [face_named; face_without_box] [] Hbad) as (_ & Hsaved & _).
  exact Hsaved.
Defined.

(** ** The conversion of a box *)

Lemma float_of_int_raises (z : Z) (e : exn) :
  float_of_int z = inl e ->
  e = OverflowError "int too large to convert to float".
Proof.
  unfold float_of_int.
  destruct (binary_normalize prec emax z 0 false); intros H;
    try discriminate H. now injection H as <-.
Qed.

Lemma to_float_raises (x : pynum) (e : exn) :
  to_float x = inl e ->
  e = OverflowError "int too large to convert to float".
Proof.
  destruct x as [z|f]; simpl; [apply float_of_int_raises|discriminate].
Qed.

Lemma py_mul_raises (x y : pynum) (e : exn) :
  py_mul x y = inl e ->
  e = OverflowError "int too large to convert to float".
Proof.
  unfold py_mul. intros H.
  destruct x as [a|a], y as [b|b]; try discriminate H;
    (destruct (to_float _) as [e1|fa] eqn:E1 in H; cbn [rbind] in H;
     [injection H as <-; now apply to_float_raises in E1|]);
    (destruct (to_float _) as [e2|fb] eqn:E2 in H; cbn [rbind] in H;
     [injection H as <-; now apply to_float_raises in E2|discriminate H]).
Qed.

Lemma py_add_raises (x y : pynum) (e : exn) :
  py_add x y = inl e ->
  e = OverflowError "int too large to convert to float".
Proof.
  unfold py_add. intros H.
  destruct x as [a|a], y as [b|b]; try discriminate H;
    (destruct (to_float _) as [e1|fa] eqn:E1 in H; cbn [rbind] in H;
     [injection H as <-; now apply to_float_raises in E1|]);
    (destruct (to_float _) as [e2|fb] eqn:E2 in H; cbn [rbind] in H;
     [injection H as <-; now apply to_float_raises in E2|discriminate H]).
Qed.

Lemma py_int_raises (x : pynum) (e : exn) :
  py_int x = inl e ->
  e = ValueError "cannot convert float NaN to integer" \/
  e = OverflowError "cannot convert float infinity to integer".
Proof.
  destruct x as [z|[s|s| |s m ex]]; simpl; intros H; try discriminate H;
    injection H as <-; [now right|now left].
Qed.

Lemma to_pixels_raises (x : pynum) (extent : Z) (e : exn) :
  to_pixels x extent = inl e -> In e pixel_box_exceptions.
Proof.
  unfold to_pixels. intros H.
  destruct (py_mul x (PyInt extent)) as [e1|p] eqn:E1; cbn [rbind] in H.
  - injection H as <-. apply py_mul_raises in E1. subst e1.
    unfold pixel_box_exceptions. cbn [In]. auto 12.
  - apply py_int_raises in H as [-> | ->];
      unfold pixel_box_exceptions; cbn [In]; auto 12.
Qed.

Lemma pixel_box_via_to_pixels (width height : Z) (face : CelebrityTypeDef) :
  pixel_box width height face =
  (compared <-- getitem "Face" (Face face) ;;
   box <-- getitem "BoundingBox" (BoundingBox compared) ;;
   l <-- getitem "Left" (Left box) ;;
   left_ <-- to_pixels l width ;;
   t <-- getitem "Top" (Top box) ;;
   top_ <-- to_pixels t height ;;
   w <-- getitem "Width" (Width box) ;;
   r <-- py_add l w ;;
   right_ <-- to_pixels r width ;;
   h <-- getitem "Height" (Height box) ;;
   b <-- py_add t h ;;
   bottom_ <-- to_pixels b height ;;
   inr (left_, top_, right_, bottom_))%result.
Proof.
  unfold pixel_box, to_pixels.
  destruct (Face face) as [compared|]; [|reflexivity]. cbn [getitem rbind].
  destruct (BoundingBox compared) as [box|]; [|reflexivity].
  cbn [getitem rbind].
  destruct (Left box) as [l|]; [|reflexivity]. cbn [getitem rbind].
  destruct (py_mul l (PyInt width)) as [e|lw]; [reflexivity|]. cbn [rbind].
  destruct (py_int lw) as [e|left_]; [reflexivity|]. cbn [rbind].
  destruct (Top box) as [t|]; [|reflexivity]. cbn [getitem rbind].
  destruct (py_mul t (PyInt height)) as [e|th]; [reflexivity|]. cbn [rbind].
  destruct (py_int th) as [e|top_]; [reflexivity|]. cbn [rbind].
  destruct (Width box) as [w|]; [|reflexivity]. cbn [getitem rbind].
  destruct (py_add l w) as [e|r]; [reflexivity|]. cbn [rbind].
  destruct (py_mul r (PyInt width)) as [e|rw]; [reflexivity|]. cbn [rbind].
  destruct (py_int rw) as [e|right_]; [reflexivity|]. cbn [rbind].
  destruct (Height box) as [hh|]; [|reflexivity]. cbn [getitem rbind].
  destruct (py_add t hh) as [e|b]; [reflexivity|]. cbn [rbind].
  destruct (py_mul b (PyInt height)) as [e|bh]; [reflexivity|]. cbn [rbind].
  destruct (py_int bh) as [e|bottom_]; reflexivity.
Qed.

(** X6: the conversion of a box raises nothing but a [KeyError] for one of
    its six keys, the [ValueError] of a NaN, or the [OverflowError] of an
    infinity or of an image dimension too large for a float; the first
    missing key on the way from the entity to the box is the one named. *)
Theorem pixel_box_raises_only (width height : Z) (face : CelebrityTypeDef)
        (e : exn) :
  pixel_box width height face = inl e ->
  In e pixel_box_exceptions /\
  (Face face = None -> e = KeyError "Face") /\
  (forall compared,
      Face face = Some compared -> BoundingBox compared = None ->
      e = KeyError "BoundingBox") /\
  (forall compared box,
      Face face = Some compared -> BoundingBox compared = Some box ->
      Left box = None -> e = KeyError "Left").
Proof.
  intros H. split; [|split; [|split]].
  - rewrite pixel_box_via_to_pixels in H.
    assert (Hkey : forall k, In k ["Face"; "BoundingBox"; "Left"; "Top";
                                   "Width"; "Height"]%string ->
                             In (KeyError k) pixel_box_exceptions).
    { intros k Hk. unfold pixel_box_exceptions. cbn [In] in Hk |- *.
      repeat (destruct Hk as [<-|Hk]; [auto 12|]). contradiction. }
    assert (Hover : In (OverflowError "int too large to convert to float")
                       pixel_box_exceptions)
      by (unfold pixel_box_exceptions; cbn [In]; auto 12).
    destruct (Face face) as [compared|]; cbn [getitem rbind] in H;
      [|injection H as <-; apply Hkey; cbn [In]; auto 8].
    destruct (BoundingBox compared) as [box|]; cbn [getitem rbind] in H;
      [|injection H as <-; apply Hkey; cbn [In]; auto 8].
    destruct (Left box) as [l|]; cbn [getitem rbind] in H;
      [|injection H as <-; apply Hkey; cbn [In]; auto 8].
    destruct (to_pixels l width) as [e1|left_] eqn:E1; cbn [rbind] in H;
      [injection H as <-; now apply to_pixels_raises in E1|].
    destruct (Top box) as [t|]; cbn [getitem rbind] in H;
      [|injection H as <-; apply Hkey; cbn [In]; auto 8].
    destruct (to_pixels t height) as [e2|top_] eqn:E2; cbn [rbind] in H;
      [injection H as <-; now apply to_pixels_raises in E2|].
    destruct (Width box) as [w|]; cbn [getitem rbind] in H;
      [|injection H as <-; apply Hkey; cbn [In]; auto 8].
    destruct (py_add l w) as [e3|r] eqn:E3; cbn [rbind] in H;
      [injection H as <-; apply py_add_raises in E3; now subst e3|].
    destruct (to_pixels r width) as [e4|right_] eqn:E4; cbn [rbind] in H;
      [injection H as <-; now apply to_pixels_raises in E4|].
    destruct (Height box) as [hh|]; cbn [getitem rbind] in H;
      [|injection H as <-; apply Hkey; cbn [In]; auto 8].
    destruct (py_add t hh) as [e5|b] eqn:E5; cbn [rbind] in H;
      [injection H as <-; apply py_add_raises in E5; now subst e5|].
    destruct (to_pixels b height) as [e6|bottom_] eqn:E6; cbn [rbind] in H;
      [injection H as <-; now apply to_pixels_raises in E6|].
    discriminate H.
  - intros HF. unfold pixel_box in H. rewrite HF in H.
    cbn [getitem rbind] in H. now injection H as <-.
  - intros compared HF HB. unfold pixel_box in H. rewrite HF in H.
    cbn [getitem rbind] in H. rewrite HB in H.
    cbn [getitem rbind] in H. now injection H as <-.
  - intros compared box HF HB HL. unfold pixel_box in H. rewrite HF in H.
    cbn [getitem rbind] in H. rewrite HB in H.
    cbn [getitem rbind] in H. rewrite HL in H.
    cbn [getitem rbind] in H. now injection H as <-.
Qed.

Lemma pixel_box_raises_only_witness :
  In (KeyError "Face") pixel_box_exceptions.
Proof.
  assert (H : pixel_box 1000 500 face_without_box = inl (KeyError "Face"))
    by reflexivity.
  exact (proj1 (pixel_box_raises_only 1000 500 face_without_box _ H)).
Defined.

(** ** One drawn entity *)

(** X7: a drawn entity whose four calls all succeed issues exactly the
    outline, the measurement of its name at the label position, the filled
    rectangle and the text; the filled rectangle is the box that
    [textbbox] answered for that name at that position, right after the
    outline. *)
Theorem label_background_is_measured_box (env : Env) (width height : Z)
        (face : CelebrityTypeDef) (hist : list event) (l t r b : Z) :
  pixel_box width height face = inr (l, t, r, b) ->
  confident face = true ->
  fst (draw_face env width height face hist) = inr tt ->
  let measured :=
    textbbox env (hist ++ [DrawRectangle (l, t, r, b) None (Some "red") 3])
             (l, t - 20) (name_of face) in
  snd (draw_face env width height face hist)
  = face_events (l, t, r, b) (name_of face) measured /\
  filled_boxes (snd (draw_face env width height face hist)) = [measured].
Proof.
  intros Hpx Hc. unfold draw_face. rewrite bind_lift, Hpx.
  unfold confident in Hc. rewrite Hc. rewrite bind_call_.
  destruct (raises env hist _) as [e1|]; [discriminate|].
  cbn [fst snd]. rewrite bind_call.
  destruct (raises env _ (DrawTextbbox _ _)) as [e2|]; [discriminate|].
  cbn [fst snd]. rewrite bind_call_.
  destruct (raises env _ (DrawRectangle _ (Some _) None 1)) as [e3|];
    [discriminate|].
  cbn [fst snd]. unfold call_, call.
  destruct (raises env _ (DrawText _ _ _)) as [e4|]; [discriminate|].
  intros _. cbv zeta. split; reflexivity.
Qed.

Lemma label_background_is_measured_box_witness :
  filled_boxes (snd (draw_face (calm None) 1000 500 face_named []))
  = [textbbox (calm None)
              ([] ++ [DrawRectangle (100, 100, 400, 300) None
                                    (Some "red"%string) 3])
              (100, 100 - 20) (name_of face_named)].
Proof.
  assert (Hpx : pixel_box 1000 500 face_named = inr (100, 100, 400, 300))
    by (vm_compute; reflexivity).
  assert (Hc : confident face_named = true) by (vm_compute; reflexivity).
  assert (Hr : fst (draw_face (calm None) 1000 500 face_named []) = inr tt)
    by (vm_compute; reflexivity).
  exact (proj2 (label_background_is_measured_box (calm None) 1000 500
                  face_named [] 100 100 400 300 Hpx Hc Hr)).
Defined.

(** X8: an entity is passed over exactly when its confidence is at most 90
    or is a NaN, which is neither above 90 nor at most 90. *)
Theorem skipped_iff_low_or_nan (face : CelebrityTypeDef) :
  (confident face = false <->
   py_le_int (confidence_of face) 90 = true \/
   confidence_of face = PyFloat S754_nan) /\
  (confidence_of face = PyFloat S754_nan ->
   py_le_int (confidence_of face) 90 = false).
Proof.
  unfold confident. destruct (confidence_of face) as [z|f].
  - split; [|discriminate]. simpl. split.
    + intros H. left. apply Z.ltb_ge in H. now apply Z.leb_le.
    + intros [H|H]; [|discriminate]. apply Z.leb_le in H. now apply Z.ltb_ge.
  - destruct f as [s|s| |s m e]; simpl.
    + split; [|discriminate].
      destruct (0 ?= 90); split; try (intros [H|H]); try discriminate;
        auto.
    + split; [|discriminate].
      destruct s; split; try (intros [H|H]); try discriminate; auto.
    + split; [|reflexivity]. split; auto.
    + split; [|discriminate].
      destruct e as [|p|p]; simpl;
        (match goal with
         | |- context [?a ?= ?b] => destruct (a ?= b)
         end; split; try (intros [H|H]); try discriminate; auto).
Qed.

Lemma skipped_iff_low_or_nan_witness :
  confident face_with_nan = false /\
  py_le_int (confidence_of face_with_nan) 90 = false.
Proof.
  destruct (skipped_iff_low_or_nan face_with_nan) as [Hiff Hnan].
  split; [apply Hiff; right; reflexivity|apply Hnan; reflexivity].
Defined.

(** ** Paths, once more *)

Module ImagePathFacts.
Import PurePath PurePathFacts.

Lemma append_inv_head (a x y : string) :
  (a ++ x)%string = (a ++ y)%string -> x = y.
Proof.
  induction a as [|c a IH]; simpl; intros H; [exact H|].
  injection H as H. now apply IH.
Qed.

(** The text before and after the last occurrence of a character. *)
Lemma rfind_split (c : ascii) (s : string) :
  0 <= rfind c s ->
  exists rest,
    s = (substring 0 (Z.to_nat (rfind c s)) s ++ String c rest)%string.
Proof.
  induction s as [|a s IH]; simpl; [lia|].
  destruct (0 <=? rfind c s) eqn:E.
  - intros _. apply Z.leb_le in E. destruct (IH E) as [rest Hrest].
    exists rest. rewrite Z2Nat.inj_add by lia.
    change (Z.to_nat 1) with 1%nat. rewrite Nat.add_1_r. simpl.
    now rewrite <- Hrest.
  - destruct (Ascii.eqb a c) eqn:Ea; [|lia].
    intros _. apply Ascii.eqb_eq in Ea. subst a. exists s.
    simpl. destruct s; reflexivity.
Qed.

(** No name is its own stem followed by "-resultado.jpg". *)
Lemma name_is_not_its_result (p : path) :
  name p <> (stem p ++ "-resultado.jpg")%string.
Proof.
  unfold stem.
  destruct ((0 <? rfind dot (name p)) &&
            (rfind dot (name p) <? Z.of_nat (String.length (name p)) - 1))
           eqn:E.
  - apply andb_true_iff in E as [E _]. apply Z.ltb_lt in E.
    destruct (rfind_split dot (name p)) as [rest Hrest]; [lia|].
    intros H. rewrite Hrest in H at 1.
    apply append_inv_head in H. discriminate H.
  - intros H. apply (f_equal String.length) in H.
    rewrite length_append in H. simpl in H. lia.
Qed.

Lemma parse_root_str (p : path) :
  well_formed p -> parts p <> [] -> parse_root (str p) = root p.
Proof.
  intros [Hr Hp] Hne. unfold str.
  destruct (parts p) as [|x l] eqn:E; [contradiction|].
  inversion Hp as [|? ? [Hslash Hpart] _]; subst.
  assert (Hhead : exists c tl,
             concat "/" (x :: l) = String c tl /\ c <> slash).
  { destruct x as [|c x]; [discriminate Hpart|].
    cbn [lacks] in Hslash. apply andb_true_iff in Hslash as [Hc _].
    apply negb_true_iff, Ascii.eqb_neq in Hc.
    destruct l; [now exists c, x|].
    eexists c, _. split; [reflexivity|exact Hc]. }
  destruct Hhead as (c & tl & -> & Hc).
  assert (Hdec : forall A (u v : A),
             (if ascii_dec slash c then u else v) = v).
  { intros A u v. destruct (ascii_dec slash c) as [Heq|_]; [|reflexivity].
    now subst c. }
  destruct Hr as [<-|[<-|[<-|[]]]]; unfold parse_root;
    cbn [append prefix]; repeat (rewrite ?Hdec; cbn [prefix]);
    try (destruct (ascii_dec slash slash) as [_|Hn];
         [|now contradiction Hn]);
    cbn [prefix]; rewrite ?Hdec; reflexivity.
Qed.

End ImagePathFacts.

Section ResolvedPaths.
Import PurePath PurePathFacts ImagePathFacts.

Variable file__ : string.

Lemma joined_well_formed (file_name : string) :
  well_formed (joinpath (images_dir file__) (parse file_name)).
Proof.
  apply joinpath_well_formed;
    [apply images_dir_well_formed|apply parse_well_formed].
Qed.

(** Parsing a resolved path gives the joined path back. *)
Lemma parse_get_image_path (file_name : string) :
  parts (parse file_name) <> [] ->
  parse (get_image_path file__ file_name)
  = joinpath (images_dir file__) (parse file_name).
Proof.
  intros Hne. unfold get_image_path.
  pose proof (joined_well_formed file_name) as Hwf.
  pose proof (parts_joinpath_not_nil (images_dir file__) (parse file_name) Hne)
    as Hne'.
  pose proof (parts_parse_str _ Hwf Hne') as Hparts.
  pose proof (parse_root_str _ Hwf Hne') as Hroot.
  destruct (joinpath (images_dir file__) (parse file_name)) as [rt ps].
  unfold parse in *. cbn [parts root] in *. now rewrite Hparts, Hroot.
Qed.

Lemma name_get_image_path (file_name : string) :
  parts (parse file_name) <> [] ->
  name (parse (get_image_path file__ file_name)) = name (parse file_name).
Proof.
  intros Hne. rewrite (parse_get_image_path file_name Hne).
  now apply name_joinpath.
Qed.

Lemma result_name_plain (s : string) :
  lacks slash s = true ->
  parse (s ++ "-resultado.jpg")
  = {| root := EmptyString; parts := [(s ++ "-resultado.jpg")%string] |}.
Proof.
  intros Hs. apply parse_single; [|apply is_part_result].
  now rewrite lacks_append, Hs.
Qed.

End ResolvedPaths.

(** X9: the output path of a file differs from the path the file was read
    from: the annotator never overwrites its input. *)
Theorem never_overwrites_input (file__ image_file : string) :
  PurePath.parts (PurePath.parse image_file) <> [] ->
  output_path_of file__ (get_image_path file__ image_file)
  <> get_image_path file__ image_file.
Proof.
  intros Hne Heq.
  apply (f_equal (fun s => PurePath.name (PurePath.parse s))) in Heq.
  cbv beta in Heq. unfold output_path_of in Heq.
  rewrite (stem_get_image_path file__ image_file Hne) in Heq.
  pose proof (PurePathFacts.stem_lacks_slash _
                (PurePathFacts.parse_well_formed image_file)) as Hstem.
  pose proof (result_name_plain _ Hstem) as Hsingle.
  rewrite name_get_image_path in Heq by (rewrite Hsingle; discriminate).
  rewrite Hsingle, (name_get_image_path file__ image_file Hne) in Heq.
  cbn in Heq. symmetry in Heq.
  now apply (ImagePathFacts.name_is_not_its_result
               (PurePath.parse image_file)).
Qed.

Lemma never_overwrites_input_witness :
  output_path_of "/srv/app/main.py"
                 (get_image_path "/srv/app/main.py" "a-resultado.jpg")
  <> get_image_path "/srv/app/main.py" "a-resultado.jpg".
Proof.
  assert (Hne : PurePath.parts (PurePath.parse "a-resultado.jpg") <> [])
    by discriminate.
  exact (never_overwrites_input "/srv/app/main.py" "a-resultado.jpg" Hne).
Defined.

(** X10: a file name that starts with a slash is resolved to itself,
    whatever the directory of the script: the images directory is left
    behind. *)
Theorem absolute_name_leaves_images_dir (file__ image_file : string) :
  prefix "/" image_file = true ->
  get_image_path file__ image_file
  = PurePath.str (PurePath.parse image_file) /\
  (forall other, get_image_path other image_file
                 = get_image_path file__ image_file).
Proof.
  intros Habs.
  assert (Hroot : (PurePath.root (PurePath.parse image_file) =? EmptyString)
                  %string = false).
  { cbn [PurePath.parse PurePath.root]. unfold PurePath.parse_root.
    rewrite Habs.
    destruct (prefix "///" image_file); [reflexivity|].
    destruct (prefix "//" image_file); reflexivity. }
  assert (Hget : forall f, get_image_path f image_file
                           = PurePath.str (PurePath.parse image_file)).
  { intros f. unfold get_image_path, PurePath.joinpath.
    now rewrite Hroot. }
  split; [apply Hget|]. intros other. now rewrite !Hget.
Qed.

Lemma absolute_name_leaves_images_dir_witness :
  get_image_path "/srv/app/main.py" "/etc/hosts"
  = PurePath.str (PurePath.parse "/etc/hosts").
Proof.
  exact (proj1 (absolute_name_leaves_images_dir "/srv/app/main.py"
                  "/etc/hosts" eq_refl)).
Defined.

(** X11: taking a resolved path apart gives back what was joined: the
    path of a plain file name has that name as its last component and the
    images directory as its parent. *)
Theorem resolved_path_round_trip (file__ image_file : string) :
  PurePath.lacks PurePath.slash image_file = true ->
  PurePath.is_part image_file = true ->
  PurePath.name (PurePath.parse (get_image_path file__ image_file))
  = image_file /\
  PurePath.parent (PurePath.parse (get_image_path file__ image_file))
  = images_dir file__ /\
  PurePath.str (PurePath.parse (get_image_path file__ image_file))
  = get_image_path file__ image_file.
Proof.
  intros Hs Hp.
  pose proof (PurePathFacts.parse_single image_file Hs Hp) as Hsingle.
  assert (Hne : PurePath.parts (PurePath.parse image_file) <> [])
    by (rewrite Hsingle; discriminate).
  rewrite (parse_get_image_path file__ image_file Hne).
  split; [|split; [|reflexivity]].
  - rewrite PurePathFacts.name_joinpath by exact Hne.
    now rewrite Hsingle.
  - rewrite Hsingle. unfold PurePath.joinpath, PurePath.parent.
    cbn [PurePath.root PurePath.parts String.eqb].
    rewrite removelast_last.
    now destruct (images_dir file__).
Qed.

Lemma resolved_path_round_trip_witness :
  PurePath.name (PurePath.parse (get_image_path "/srv/app/main.py"
                                                "riana.jpeg"))
  = "riana.jpeg"%string.
Proof.
  exact (proj1 (resolved_path_round_trip "/srv/app/main.py" "riana.jpeg"
                  eq_refl eq_refl)).
Defined.

(** ** The recognition client *)

(** X12: the service is called at most once, only after the file was
    opened and read without an exception, and with the bytes that were
    read; a completed call returns the answer of the service to those
    bytes; a file that cannot be opened is neither read nor sent. *)
Theorem service_called_after_read (env : Env) (photo_path : string)
        (hist : list event) :
  let run := recognize_celebrities env photo_path hist in
  let image_bytes := file_bytes env (hist ++ [FileOpen photo_path])
                                photo_path in
  (recognized (snd run) = [image_bytes] <->
   raises env hist (FileOpen photo_path) = None /\
   raises env (hist ++ [FileOpen photo_path]) (FileRead photo_path) = None)
  /\ (recognized (snd run) = [] \/ recognized (snd run) = [image_bytes])
  /\ (forall resp,
         fst run = inr resp ->
         snd run = recognition_calls photo_path image_bytes /\
         resp = response env
                         (hist ++ [FileOpen photo_path; FileRead photo_path])
                         image_bytes)
  /\ (forall e,
         raises env hist (FileOpen photo_path) = Some e ->
         run = (inl e, [FileOpen photo_path])).
Proof.
  cbv zeta. rewrite recognize_celebrities_eq.
  destruct (raises env hist (FileOpen photo_path)) as [e1|].
  { cbn. split; [|split; [now left|split]].
    - split; [discriminate|]. intros [H _]. discriminate H.
    - discriminate.
    - intros e H. now injection H as <-. }
  destruct (raises env _ (FileRead photo_path)) as [e2|].
  { cbn. split; [|split; [now left|split; discriminate]].
    split; [discriminate|]. intros [_ H]. discriminate H. }
  cbv zeta.
  destruct (raises env _ (RecognizeCelebrities _)) as [e3|]; cbn.
  - split; [|split; [now right|split; discriminate]].
    split; [now split|reflexivity].
  - split; [|split; [now right|split; [|discriminate]]].
    + split; [now split|reflexivity].
    + intros resp H. injection H as <-. now split.
Qed.

Lemma service_called_after_read_witness :
  recognize_celebrities (world None (missing_file "a.jpg")) "a.jpg" []
  = (inl (LibraryError "failed"), [FileOpen "a.jpg"]).
Proof.
  destruct (service_called_after_read
              (world None (missing_file "a.jpg")) "a.jpg" [])
    as (_ & _ & _ & Hmissing).
  exact (Hmissing (LibraryError "failed") eq_refl).
Defined.

(** ** The script as a whole *)

(** An exception leaves the loop only from the [print] of an error
    line. *)
Lemma main_loop_raises (env : Env) (file__ : string) (files : list string) :
  forall hist e,
    fst (main_loop env file__ files hist) = inl e ->
    exists before image_file e',
      In image_file files /\
      snd (main_loop env file__ files hist)
      = before ++ [Print (error_line image_file e')] /\
      raises env (hist ++ before) (Print (error_line image_file e'))
      = Some e.
Proof.
  induction files as [|f files IH]; intros hist e; [discriminate|].
  rewrite main_loop_step, handle_file_eq.
  assert (Hnext : forall out,
             fst (main_loop env file__ files (hist ++ out)) = inl e ->
             exists before image_file e',
               In image_file (f :: files) /\
               out ++ snd (main_loop env file__ files (hist ++ out))
               = before ++ [Print (error_line image_file e')] /\
               raises env (hist ++ before)
                      (Print (error_line image_file e')) = Some e).
  { intros out Hr.
    destruct (IH (hist ++ out) e Hr) as (before & g & e' & Hin & Hout & He).
    exists (out ++ before), g, e'.
    split; [now right|]. rewrite Hout, !app_assoc. now split. }
  destruct (process_file env file__ f hist) as [[e0|[]] out].
  - destruct (raises env (hist ++ out) (Print (error_line f e0)))
      as [e1|] eqn:Hprint; cbn [fst snd].
    + intros H. injection H as <-.
      exists out, f, e0. split; [now left|now split].
    + apply Hnext.
  - cbn [fst snd]. apply Hnext.
Qed.

(** X13: an exception leaves the script only from an import, from the
    creation of the client or from the [print] of the error line of one of
    its files: what the reading of a file, the service, the imaging library
    or the other prints raise never does.  When those calls do not raise,
    the script completes. *)
Theorem only_uncaught_calls_end_the_script (env : Env) (file__ : string)
        (hist : list event) :
  (forall e,
      fst (main env file__ hist) = inl e ->
      exists before ev,
        snd (main env file__ hist) = before ++ [ev] /\
        raises env (hist ++ before) ev = Some e /\
        uncaught_call ev) /\
  ((forall h module_name, raises env h (Import module_name) = None) ->
   (forall h, raises env h (Boto3Client "rekognition") = None) ->
   error_lines_print env ->
   fst (main env file__ hist) = inr tt).
Proof.
  split.
  - intros e. unfold main.
    rewrite bind_call_.
    destruct (raises env hist (Import "pathlib")) as [e1|] eqn:E1.
    { intros H. injection H as <-. exists [], (Import "pathlib").
      rewrite app_nil_r. repeat split; [exact E1|]. left. now eexists. }
    cbn [fst snd]. rewrite bind_call_.
    destruct (raises env _ (Import "boto3")) as [e2|] eqn:E2.
    { intros H. injection H as <-.
      exists [Import "pathlib"], (Import "boto3").
      repeat split; [exact E2|]. left. now eexists. }
    cbn [fst snd]. rewrite bind_call_.
    destruct (raises env _ (Import "mypy_boto3_rekognition.type_defs"))
      as [e3|] eqn:E3.
    { intros H. injection H as <-.
      exists [Import "pathlib"; Import "boto3"],
             (Import "mypy_boto3_rekognition.type_defs").
      rewrite <- app_assoc in E3.
      repeat split; [exact E3|]. left. now eexists. }
    cbn [fst snd]. rewrite bind_call_.
    destruct (raises env _ (Import "PIL")) as [e4|] eqn:E4.
    { intros H. injection H as <-.
      exists [Import "pathlib"; Import "boto3";
              Import "mypy_boto3_rekognition.type_defs"], (Import "PIL").
      rewrite <- !app_assoc in E4.
      repeat split; [exact E4|]. left. now eexists. }
    cbn [fst snd]. rewrite bind_call_.
    destruct (raises env _ (Boto3Client "rekognition")) as [e5|] eqn:E5.
    { intros H. injection H as <-.
      exists [Import "pathlib"; Import "boto3";
              Import "mypy_boto3_rekognition.type_defs"; Import "PIL"],
             (Boto3Client "rekognition").
      rewrite <- !app_assoc in E5.
      repeat split; [exact E5|]. right. left. now eexists. }
    cbn [fst snd]. intros Hloop.
    apply main_loop_raises in Hloop
      as (before & image_file & e' & Hin & Hout & He).
    exists ([Import "pathlib"; Import "boto3";
             Import "mypy_boto3_rekognition.type_defs"; Import "PIL";
             Boto3Client "rekognition"] ++ before),
           (Print (error_line image_file e')).
    rewrite Hout. rewrite <- !app_assoc in He. cbn [app] in He |- *.
    repeat split; [exact He|]. right. right. now exists image_file, e'.
  - intros Himport Hclient Hlog. unfold main.
    rewrite bind_call_, Himport. cbn [fst].
    rewrite bind_call_, Himport. cbn [fst].
    rewrite bind_call_, Himport. cbn [fst].
    rewrite bind_call_, Himport. cbn [fst].
    rewrite bind_call_, Hclient. cbn [fst].
    now apply main_loop_completes.
Qed.

Lemma only_uncaught_calls_end_the_script_witness :
  exists before ev,
    snd (main (world (Some []) closed_console) "/srv/app/main.py" [])
    = before ++ [ev] /\
    uncaught_call ev.
Proof.
  assert (He : fst (main (world (Some []) closed_console)
                         "/srv/app/main.py" [])
               = inl (LibraryError "failed")) by (vm_compute; reflexivity).
  destruct (only_uncaught_calls_end_the_script
              (world (Some []) closed_console) "/srv/app/main.py" [])
    as [Hraise _].
  destruct (Hraise _ He) as (before & ev & Hout & _ & Hev).
  now exists before, ev.
Defined.

(** ** A font that cannot be loaded *)

Lemma draw_face_boxes_without_font (env : Env)
      (image_path output_path : string) (faces : list CelebrityTypeDef)
      (h : list event) :
  (forall h', raises env h' (FontTruetype "Ubuntu-R.ttf" 20) <> None) ->
  let run := draw_face_boxes env image_path output_path faces h in
  (exists e, fst run = inl e) /\
  saved_paths (snd run) = [] /\
  outline_boxes (snd run) = [] /\
  labels (snd run) = [] /\
  printed (snd run) = [].
Proof.
  intros Hfont. cbv zeta. rewrite draw_face_boxes_eq.
  destruct (raises env h (ImageOpen image_path)) as [e1|].
  { split; [now exists e1|repeat split]. }
  destruct (raises env _ ImageDrawDraw) as [e2|].
  { split; [now exists e2|repeat split]. }
  destruct (raises env _ (FontTruetype _ _)) as [e3|] eqn:E.
  { split; [now exists e3|repeat split]. }
  now apply Hfont in E.
Qed.

(** One iteration when the font cannot be loaded. *)
Lemma handle_file_without_font (env : Env) (file__ image_file : string)
      (h : list event) :
  (forall h', raises env h' (FontTruetype "Ubuntu-R.ttf" 20) <> None) ->
  let out := snd (handle_file env file__ image_file h) in
  saved_paths out = [] /\ outline_boxes out = [] /\ labels out = [] /\
  Forall (fun line =>
            forall f, line <> ("Imagem processada e salva em: " ++ f)%string)
         (printed out).
Proof.
  intros Hfont. cbv zeta. rewrite handle_file_eq.
  assert (Hbody : let out := snd (process_file env file__ image_file h) in
                  saved_paths out = [] /\ outline_boxes out = [] /\
                  labels out = [] /\
                  Forall (fun line =>
                            forall f,
                              line <> ("Imagem processada e salva em: "
                                       ++ f)%string)
                         (printed out)).
  { cbv zeta. unfold process_file. cbv zeta. rewrite bind_run.
    set (photo_path := get_image_path file__ image_file).
    destruct (recognize_celebrities_trace env photo_path h)
      as (_ & _ & Hp & Hs & Hob & Hlb).
    cbv zeta in Hp, Hs, Hob, Hlb.
    destruct (recognize_celebrities env photo_path h) as [[e|resp] calls];
      cbn [fst snd] in Hp, Hs, Hob, Hlb |- *.
    { rewrite Hp, Hs, Hob, Hlb. repeat split. constructor. }
    rewrite saved_paths_app, outline_boxes_app, labels_app, printed_app,
      Hs, Hob, Hlb, Hp.
    cbn [app].
    destruct (get (CelebrityFaces resp) []) as [|face faces].
    - unfold print, call_, call.
      destruct (raises env _ (Print _));
        cbn [snd saved_paths outline_boxes labels printed];
        (repeat split; repeat constructor; intros g H; discriminate H).
    - destruct (draw_face_boxes_without_font env photo_path
                  (output_path_of file__ photo_path) (face :: faces)
                  (h ++ calls) Hfont) as (_ & Hs' & Hob' & Hlb' & Hp').
      cbv zeta in Hs', Hob', Hlb', Hp'.
      rewrite Hs', Hob', Hlb', Hp'. repeat split. constructor. }
  cbv zeta in Hbody. destruct Hbody as (Hs & Hob & Hlb & Hp).
  destruct (process_file env file__ image_file h) as [[e|[]] out];
    cbn [fst snd] in Hs, Hob, Hlb, Hp |- *; [|now repeat split].
  rewrite saved_paths_app, outline_boxes_app, labels_app, printed_app,
    Hs, Hob, Hlb.
  cbn [saved_paths outline_boxes labels printed app].
  repeat split. apply Forall_app. split; [exact Hp|].
  repeat constructor. intros g H. unfold error_line in H. discriminate H.
Qed.

(** X15: when the font cannot be loaded, the batch draws nothing and saves
    nothing, whatever the service answers: every file with an entity ends
    in its error line. *)
Theorem no_font_no_output (env : Env) (file__ : string)
        (files : list string) (hist : list event) :
  (forall h, raises env h (FontTruetype "Ubuntu-R.ttf" 20) <> None) ->
  saved_paths (snd (main_loop env file__ files hist)) = [] /\
  outline_boxes (snd (main_loop env file__ files hist)) = [] /\
  labels (snd (main_loop env file__ files hist)) = [] /\
  Forall (fun line =>
            forall f, line <> ("Imagem processada e salva em: " ++ f)%string)
         (printed (snd (main_loop env file__ files hist))).
Proof.
  intros Hfont. revert hist.
  induction files as [|f files IH]; intros hist.
  - cbn. repeat split. constructor.
  - rewrite main_loop_step.
    destruct (handle_file_without_font env file__ f hist Hfont)
      as (Hs & Hob & Hlb & Hp).
    cbv zeta in Hs, Hob, Hlb, Hp.
    destruct (handle_file env file__ f hist) as [[e|[]] out];
      cbn [fst snd] in Hs, Hob, Hlb, Hp |- *; [now repeat split|].
    destruct (IH (hist ++ out)) as (Hs' & Hob' & Hlb' & Hp').
    rewrite saved_paths_app, outline_boxes_app, labels_app, printed_app,
      Hs, Hob, Hlb, Hs', Hob', Hlb'.
    repeat split. apply Forall_app. now split.
Qed.

Lemma no_font_no_output_witness :
  saved_paths (snd (main_loop (world (Some [face_named]) missing_font)
                              "/srv/app/main.py" image_files []))
  = [].
Proof.
  assert (Hfont : forall h,
             raises (world (Some [face_named]) missing_font) h
                    (FontTruetype "Ubuntu-R.ttf" 20) <> None)
    by (intros h; discriminate).
  exact (proj1 (no_font_no_output (world (Some [face_named]) missing_font)
                  "/srv/app/main.py" image_files [] Hfont)).
Defined.

(** ** Output paths that coincide *)

Lemma append_inv_tail (a b s : string) :
  (a ++ s)%string = (b ++ s)%string -> a = b.
Proof.
  revert b. induction a as [|x a IH]; intros b H.
  - destruct b as [|y b]; [reflexivity|]. exfalso.
    apply (f_equal String.length) in H.
    rewrite PurePathFacts.length_append in H. simpl in H.
    rewrite PurePathFacts.length_append in H. lia.
  - destruct b as [|y b].
    + exfalso. apply (f_equal String.length) in H. simpl in H.
      rewrite PurePathFacts.length_append in H. lia.
    + simpl in H. injection H as -> H. f_equal. now apply IH.
Qed.

(** X16: two files are given the same output path exactly when their
    names have the same stem: files that differ only in their extension
    are saved over each other. *)
Theorem outputs_coincide_iff_same_stem (file__ file1 file2 : string) :
  PurePath.parts (PurePath.parse file1) <> [] ->
  PurePath.parts (PurePath.parse file2) <> [] ->
  (output_path_of file__ (get_image_path file__ file1)
   = output_path_of file__ (get_image_path file__ file2) <->
   PurePath.stem (PurePath.parse file1)
   = PurePath.stem (PurePath.parse file2)).
Proof.
  intros H1 H2. rewrite !output_path_of_eq by assumption. split.
  - intros H.
    apply ImagePathFacts.append_inv_head in H.
    apply (ImagePathFacts.append_inv_head "/") in H.
    now apply append_inv_tail in H.
  - now intros ->.
Qed.

Lemma outputs_coincide_iff_same_stem_witness :
  output_path_of "/srv/app/main.py"
                 (get_image_path "/srv/app/main.py" "will.jpg")
  = output_path_of "/srv/app/main.py"
                   (get_image_path "/srv/app/main.py" "will.png").
Proof.
  assert (H1 : PurePath.parts (PurePath.parse "will.jpg") <> [])
    by discriminate.
  assert (H2 : PurePath.parts (PurePath.parse "will.png") <> [])
    by discriminate.
  exact (proj2 (outputs_coincide_iff_same_stem "/srv/app/main.py"
                  "will.jpg" "will.png" H1 H2) eq_refl).
Defined.
